(** * carmcmc/samplers.py: the [MCMCSample] class

    A shallow embedding of the sample store of [MCMCSample] and of the
    diagnostics computed from it.  Python exceptions are values of [exn];
    a method of the class is a computation in the monad [M], which threads
    the interpreter state (the [_samples] dictionary, the heap of array
    objects it refers to, the files on disk and the lines printed so far)
    and keeps the state reached when an exception is raised.  numpy's
    float64 is Rocq's primitive binary64 [float]. *)

From Stdlib Require Import Floats ZArith Uint63 Ascii String.
From stdpp Require Import gmap strings list.

#[local] Set Warnings "-inexact-float".
#[local] Open Scope float_scope.
#[local] Open Scope nat_scope.
#[local] Open Scope stdpp_scope.

(** ** Python exceptions and outcomes *)

Inductive exn : Type :=
| KeyError (key : string)
| IndexError
| IOError (path : string)
| ValueError
| TypeError
| RuntimeError
| SystemError.

Inductive outcome (A : Type) : Type :=
| Return (a : A)
| Raise (e : exn).
Arguments Return {A} a.
Arguments Raise {A} e.

(** Sequencing, the computation first: [x <- m ; k] runs [m], then [k]. *)
Class Bind (F : Type → Type) : Type :=
  bind : ∀ {A B : Type}, F A → (A → F B) → F B.

Notation "x <- m ; k" := (bind m (λ x, k))
  (at level 20, m at level 100, k at level 200, only parsing).
Notation "' p <- m ; k" := (bind m (λ x, match x with p => k end))
  (at level 20, p pattern, m at level 100, k at level 200, only parsing).

#[export] Instance outcome_bind : Bind outcome := λ A B o k,
  match o with
  | Return a => k a
  | Raise e => Raise e
  end.

Definition raises {A} (o : outcome A) : Prop := ∃ e, o = Raise e.

(** ** numpy arrays *)

(** An element of an array: float64, or complex128 as a pair of float64. *)
Inductive scalar : Type :=
| Real (x : float)
| Complex (re im : float).

(** [z.real] *)
Definition real (z : scalar) : float :=
  match z with
  | Real x => x
  | Complex re _ => re
  end.

Definition is_complex (z : scalar) : bool :=
  match z with
  | Real _ => false
  | Complex _ _ => true
  end.

(** An array is its shape and its elements in row-major order. *)
Record ndarray (A : Type) : Type := Ndarray { shape : list nat; data : list A }.
Arguments Ndarray {A} shape data.
Arguments shape {A} _.
Arguments data {A} _.

Definition ndim {A} (a : ndarray A) : nat := length (shape a).

(** [a.shape[k]]: indexing the shape tuple out of range is an [IndexError]. *)
Definition shape_at {A} (a : ndarray A) (k : nat) : outcome nat :=
  match shape a !! k with
  | Some n => Return n
  | None => Raise IndexError
  end.

(** [a.copy()]: a new array with the same contents. *)
Definition copy {A} (a : ndarray A) : ndarray A := Ndarray (shape a) (data a).

(** [a.real] on an array. *)
Definition ndarray_real (a : ndarray scalar) : ndarray float :=
  Ndarray (shape a) (real <$> data a).

(** [a[:, i]] for [0 <= i]: index [i] along the second axis. *)
Definition slice_axis1 {A} (a : ndarray A) (i : nat) : outcome (ndarray A) :=
  match shape a with
  | n :: d :: rest =>
      if bool_decide (i < d) then
        let r := foldr Nat.mul 1 rest in
        Return (Ndarray (n :: rest)
                  (flat_map (λ k, take r (drop ((k * d + i) * r) (data a))) (seq 0 n)))
      else Raise IndexError
  | _ => Raise IndexError
  end.

(** [a[:, np.newaxis]] on a one-dimensional array. *)
Definition add_axis {A} (a : ndarray A) : ndarray A :=
  Ndarray (shape a ++ [1]) (data a).

(** [a.reshape(a.shape[0], np.prod(a.shape[1:]))] *)
Definition reshape_2d {A} (a : ndarray A) : outcome (ndarray A) :=
  match shape a with
  | n :: rest => Return (Ndarray [n; foldr Nat.mul 1 rest] (data a))
  | [] => Raise IndexError
  end.

(** [a[i]] on a one-dimensional array, [0 <= i]. *)
Definition item {A} (a : ndarray A) (i : nat) : outcome A :=
  match data a !! i with
  | Some x => Return x
  | None => Raise IndexError
  end.

Definition float_of_nat (n : nat) : float :=
  PrimFloat.of_uint63 (Uint63.of_Z (Z.of_nat n)).

(** [n / a] for a Python int [n] and a float64 array [a]: elementwise. *)
Definition int_div_array (n : nat) (a : ndarray float) : ndarray float :=
  Ndarray (shape a) ((λ x, float_of_nat n / x)%float <$> data a).

(** ** The interpreter state *)

Definition loc : Type := positive.

(** What [print] can be given here. *)
Inductive pyobj : Type :=
| PyStr (s : string)
| PyInt (n : nat)
| PyFloat (x : float)
| PyScalar (z : scalar)
| PyArray (a : ndarray scalar)
| PyFloatArray (a : ndarray float)
| PyNone.

Record state : Type := State {
  samples : gmap string loc;            (* self._samples: name -> array object *)
  heap : gmap loc (ndarray scalar);     (* the array objects *)
  files : gmap string string;           (* the text files, by path *)
  stdout : list (list pyobj)            (* the lines printed, oldest first *)
}.

Definition M (A : Type) : Type := state → outcome A * state.

Definition ret {A} (a : A) : M A := λ st, (Return a, st).

#[export] Instance M_bind : Bind M := λ A B m k st,
  match m st with
  | (Return a, st') => k a st'
  | (Raise e, st') => (Raise e, st')
  end.

Definition lift {A} (o : outcome A) : M A := λ st, (o, st).

Definition print (args : list pyobj) : M unit := λ st,
  (Return (), State (samples st) (heap st) (files st) (stdout st ++ [args])).

(** A new array object. *)
Definition alloc (a : ndarray scalar) : M loc := λ st,
  let l := fresh (dom (heap st)) in
  (Return l, State (samples st) (<[l := a]> (heap st)) (files st) (stdout st)).

(** The array an object reference points to. *)
Definition deref (l : loc) : M (ndarray scalar) := λ st,
  match heap st !! l with
  | Some a => (Return a, st)
  | None => (Raise SystemError, st)
  end.

(** [name in self._samples] *)
Definition contains (name : string) : M bool := λ st,
  (Return (bool_decide (is_Some (samples st !! name))), st).

(** [self._samples[name]] *)
Definition getitem (name : string) : M loc := λ st,
  match samples st !! name with
  | Some l => (Return l, st)
  | None => (Raise (KeyError name), st)
  end.

(** [self._samples[name] = l] *)
Definition setitem (name : string) (l : loc) : M unit := λ st,
  (Return (), State (<[name := l]> (samples st)) (heap st) (files st) (stdout st)).

(** [list(self._samples.keys())] *)
Definition keys : M (list string) := λ st,
  (Return ((map_to_list (samples st)).*1), st).

(** [open(fname, 'r')]: the text of the file, newlines already translated. *)
Definition open (fname : string) : M string := λ st,
  match files st !! fname with
  | Some text => (Return text, st)
  | None => (Raise (IOError fname), st)
  end.

Definition LF : ascii := "010"%char.

(** [file.readline()] on a file just opened: the first line with its newline. *)
Fixpoint readline (text : string) : string :=
  match text with
  | EmptyString => EmptyString
  | String c rest =>
      if Ascii.eqb c LF then String c EmptyString else String c (readline rest)
  end.

(** The array stored under a name, if any. *)
Definition stored (st : state) (name : string) : option (ndarray scalar) :=
  samples st !! name ≫= λ l, heap st !! l.

(** Every name of the dictionary refers to an array object. *)
Definition wf (st : state) : Prop :=
  ∀ name l, samples st !! name = Some l → is_Some (heap st !! l).

Definition empty_state (fs : gmap string string) : state := State ∅ ∅ fs [].

(** ** The methods of [MCMCSample] *)

Section MCMCSample.

(** The libraries the class calls: [acor.acor], [np.genfromtxt] (on the
    text of the file, with its [skip_header] argument), [np.median],
    [np.std] and [np.percentile]. *)
Variable acor : ndarray float → outcome (float * float * float).
Variable genfromtxt : string → nat → outcome (ndarray scalar).
Variable np_median np_std : ndarray scalar → outcome pyobj.
Variable np_percentile : ndarray scalar → float * float → outcome pyobj.

(** [get_samples(self, name)] *)
Definition get_samples (name : string) : M loc :=
  l <- getitem name ;
  a <- deref l ;
  alloc (copy a).

(** [generate_from_file(self, filename)] *)
Fixpoint generate_from_file (filename : list string) : M unit :=
  match filename with
  | [] => ret ()
  | fname :: filename' =>
      file <- open fname ;
      let name := readline file in
      text <- open fname ;
      array <- lift (genfromtxt text 1) ;
      trace <- alloc array ;
      present <- contains name ;
      _ <- (if present then ret () else setitem name trace) ;
      generate_from_file filename'
  end.

(** The loop of [autocorr_timescale], over the indices still to visit. *)
Fixpoint autocorr_loop (trace : ndarray scalar) (indices : list nat)
    (acors : list float) : outcome (list float) :=
  match indices with
  | [] => Return acors
  | i :: indices' =>
      col <- slice_axis1 trace i ;
      '(tau, mean, sigma) <- acor (ndarray_real col) ;
      autocorr_loop trace indices' (acors ++ [tau])
  end.

(** [autocorr_timescale(self, trace)] *)
Definition autocorr_timescale (trace : ndarray scalar) : outcome (ndarray float) :=
  d <- shape_at trace 1 ;
  acors <- autocorr_loop trace (seq 0 d) [] ;
  Return (Ndarray [length acors] acors).

(** [effective_samples(self, name)]; [None] is Python's [None]. *)
Definition effective_samples (name : string) : M (option (ndarray float)) :=
  present <- contains name ;
  if negb present then
    _ <- print [PyStr "WARNING: sampler does not have"; PyStr name] ;
    ret None
  else
    _ <- print [PyStr "Calculating effective number of samples"] ;
    l <- getitem name ;
    traces <- deref l ;
    npts <- lift (shape_at traces 0) ;
    timescale <- lift (autocorr_timescale traces) ;
    ret (Some (int_div_array npts timescale)).

(** [effective_nsamples[i]], for the value that [effective_samples] returned. *)
Definition subscript (v : option (ndarray float)) (i : nat) : outcome float :=
  match v with
  | Some a => item a i
  | None => Raise TypeError
  end.

(** The value that [effective_samples] returned, as [print] is given it. *)
Definition print_value (v : option (ndarray float)) : pyobj :=
  match v with
  | Some a => PyFloatArray a
  | None => PyNone
  end.

(** The line of dashes under the title of a summary. *)
Definition rule : string := "----------------------------------------------".

(** The three intervals printed for one array of draws. *)
Definition print_statistics (draws : ndarray scalar) : M unit :=
  m <- lift (np_median draws) ;
  _ <- print [PyStr "Median:"; m] ;
  s <- lift (np_std draws) ;
  _ <- print [PyStr "Standard deviation:"; s] ;
  p68 <- lift (np_percentile draws (16.0, 84.0)%float) ;
  _ <- print [PyStr "68% credibility interval:"; p68] ;
  p95 <- lift (np_percentile draws (2.5, 97.5)%float) ;
  _ <- print [PyStr "95% credibility interval:"; p95] ;
  p99 <- lift (np_percentile draws (0.5, 99.5)%float) ;
  print [PyStr "99% credibility interval:"; p99].

(** The loop of [posterior_summaries] over the elements of the parameter. *)
Fixpoint summaries_loop (name : string) (traces : ndarray scalar)
    (effective_nsamples : option (ndarray float)) (indices : list nat) : M unit :=
  match indices with
  | [] => ret ()
  | i :: indices' =>
      _ <- print [PyStr "Posterior summary for parameter"; PyStr name;
                  PyStr " element"; PyInt i] ;
      _ <- print [PyStr rule] ;
      n <- lift (subscript effective_nsamples i) ;
      _ <- print [PyStr "Effective number of independent samples:"; PyFloat n] ;
      col <- lift (slice_axis1 traces i) ;
      _ <- print_statistics col ;
      summaries_loop name traces effective_nsamples indices'
  end.

(** [posterior_summaries(self, name, mypath, flag)]; the last two
    arguments are not used. *)
Definition posterior_summaries (name : string) : M unit :=
  l <- getitem name ;
  traces <- deref l ;
  effective_nsamples <- effective_samples name ;
  if bool_decide (ndim traces = 1) then
    _ <- print [PyStr "Posterior summary for parameter"; PyStr name] ;
    _ <- print [PyStr rule] ;
    _ <- print [PyStr "Effective number of independent samples:";
                print_value effective_nsamples] ;
    print_statistics traces
  else
    traces <- (if bool_decide (2 < ndim traces) then lift (reshape_2d traces)
               else ret traces) ;
    d <- lift (shape_at traces 1) ;
    summaries_loop name traces effective_nsamples (seq 0 d).

(** The body of the loop of [newaxis] for one key. *)
Definition newaxis_step (key : string) : M unit :=
  l <- getitem key ;
  a <- deref l ;
  if bool_decide (length (shape a) = 1) then l <- alloc (add_axis a) ; setitem key l
  else ret ().

(** The loop of [newaxis] over the keys. *)
Fixpoint newaxis_loop (ks : list string) : M unit :=
  match ks with
  | [] => ret ()
  | key :: ks' => _ <- newaxis_step key ; newaxis_loop ks'
  end.

(** [newaxis(self)] *)
Definition newaxis : M unit := ks <- keys ; newaxis_loop ks.

End MCMCSample.

(** ** The density contours of [plot_2dkde] *)

Section Stragglers.

(** A polygon path of a contour, and matplotlib's [Path.contains_point]. *)
Variable path : Type.
Variable contains_point : path → float * float → bool.

(** [True in found] *)
Definition True_in (found : list bool) : bool := existsb (Bool.eqb true) found.

(** The loop over the points, with the lists [sx] and [sy] so far. *)
Fixpoint stragglers_loop (outer : list path) (trace1 trace2 : ndarray float)
    (indices : list nat) (sx sy : list float) : outcome (list float * list float) :=
  match indices with
  | [] => Return (sx, sy)
  | i :: indices' =>
      x <- item trace1 i ;
      y <- item trace2 i ;
      let found := (λ o, contains_point o (x, y)) <$> outer in
      if negb (True_in found) then
        stragglers_loop outer trace1 trace2 indices' (sx ++ [x]) (sy ++ [y])
      else stragglers_loop outer trace1 trace2 indices' sx sy
  end.

(** The points plotted when [doPlotStragglers] is set: [collections] is
    [cont.collections], the paths of each contour level, in the order
    of the levels. *)
Definition stragglers (collections : list (list path))
    (trace1 trace2 : ndarray float) : outcome (list float * list float) :=
  npts <- shape_at trace1 0 ;
  outer <- match collections !! 0 with
           | Some c => Return c
           | None => Raise IndexError
           end ;
  stragglers_loop outer trace1 trace2 (seq 0 npts) [] [].

(** A point is inside when some path of the level contains it. *)
Definition inside (outer : list path) (p : float * float) : bool :=
  existsb (λ o, contains_point o p) outer.

End Stragglers.

Arguments stragglers_loop {path} _ _ _ _ _ _ _.
Arguments stragglers {path} _ _ _ _.
Arguments inside {path} _ _ _.

Section ContourLevels.

(** numpy's [sum], [min] and [max] of an array, and
    [scipy.optimize.bisect]. *)
Variable np_sum : list float → float.
Variable np_min np_max : ndarray float → outcome float.
Variable bisect : (float → float) → float → float → outcome float.







End ContourLevels.

(** ** The head of the joint plots *)

(** The head of [plot_2dpdf] and of [plot_2dkde], up to the message that
    the plot is being made, for indices [pindex1] and [pindex2] that are
    not negative: [true] when the method goes on to draw, [false] when it
    has returned.  [message] is the message of the method. *)
Definition plot_2d_head (message name1 name2 : string) (pindex1 pindex2 : nat) :
    M bool :=
  present1 <- contains name1 ;
  present2 <- contains name2 ;
  if negb present1 || negb present2 then
    _ <- print [PyStr "WARNING: sampler does not have"; PyStr name1; PyStr name2] ;
    ret false
  else
    l1 <- getitem name1 ;
    a1 <- deref l1 ;
    d1 <- lift (shape_at a1 1) ;
    if bool_decide (d1 ≤ pindex1) then
      _ <- print [PyStr "WARNING: not enough data in"; PyStr name1] ;
      ret false
    else
      l2 <- getitem name2 ;
      a2 <- deref l2 ;
      d2 <- lift (shape_at a2 1) ;
      if bool_decide (d2 ≤ pindex2) then
        _ <- print [PyStr "WARNING: not enough data in"; PyStr name2] ;
        ret false
      else
        _ <- print [PyStr message] ;
        ret true.

(** [trace1], [trace2] and [npts] of [plot_2dkde]. *)
Definition plot_2dkde_traces (name1 name2 : string) (pindex1 pindex2 : nat) :
    M (ndarray float * ndarray float * nat) :=
  l1 <- getitem name1 ;
  a1 <- deref l1 ;
  col1 <- lift (slice_axis1 a1 pindex1) ;
  let trace1 := ndarray_real col1 in
  l2 <- getitem name2 ;
  a2 <- deref l2 ;
  col2 <- lift (slice_axis1 a2 pindex2) ;
  let trace2 := ndarray_real col2 in
  npts <- lift (shape_at trace1 0) ;
  ret (trace1, trace2, npts).

(** ** The trace and the time scale of [plot_parameter] *)

(** [a[:, np.newaxis]] *)
Definition newaxis_1 {A} (a : ndarray A) : outcome (ndarray A) :=
  match shape a with
  | [] => Raise IndexError
  | n :: rest => Return (Ndarray (n :: 1 :: rest) (data a))
  end.

Section PlotParameter.

Variable acor : ndarray float → outcome (float * float * float).

(** [traces] of [plot_parameter], as it is plotted, for an index [pindex]
    that is not negative; [None] when the method has returned.  The calls
    of pyplot, which draw, are left out. *)
Definition plot_parameter_traces (name : string) (pindex : nat) :
    M (option (ndarray scalar)) :=
  present <- contains name ;
  if negb present then
    _ <- print [PyStr "WARNING: sampler does not have"; PyStr name] ;
    ret None
  else
    _ <- print [PyStr "Plotting parameter summary"] ;
    l <- getitem name ;
    traces <- deref l ;
    if bool_decide (1 < ndim traces) then
      traces <- (if bool_decide (2 < ndim traces) then lift (reshape_2d traces)
                 else ret traces) ;
      traces <- lift (slice_axis1 traces pindex) ;
      ret (Some traces)
    else ret (Some traces).

(** [acf_timescale] of [plot_parameter], for the [traces] above. *)
Definition plot_parameter_timescale (traces : ndarray scalar) :
    outcome (ndarray float) :=
  column <- newaxis_1 traces ;
  autocorr_timescale acor column.

End PlotParameter.

(** ** Notions used in the statements *)

(** [tau] is the first output of the estimator on the real part of column [i]. *)
Definition tau_of (acor : ndarray float → outcome (float * float * float))
    (trace : ndarray scalar) (i : nat) (tau : float) : Prop :=
  ∃ col mean sigma,
    slice_axis1 trace i = Return col ∧
    acor (ndarray_real col) = Return (tau, mean, sigma).

(** The state after one source has been read into [array]. *)
Definition ingested (st : state) (text : string) (array : ndarray scalar) : state :=
  let l := fresh (dom (heap st)) in
  State (match samples st !! readline text with
         | Some _ => samples st
         | None => <[readline text := l]> (samples st)
         end)
        (<[l := array]> (heap st)) (files st) (stdout st).

(** The state after [print(args)]. *)
Definition printed (st : state) (args : list pyobj) : state :=
  State (samples st) (heap st) (files st) (stdout st ++ [args]).

(** An in-place change of the array object [l] by its holder (an assignment
    to its elements, [x *= 2], ...), after which it holds [a']. *)
Definition array_assign (l : loc) (a' : ndarray scalar) : M unit := λ st,
  (Return (), State (samples st) (<[l := a']> (heap st)) (files st) (stdout st)).

(** What the holders of copies may do with them, one assignment after
    another. *)
Definition assign_all (ws : list (loc * ndarray scalar)) (st : state) : state :=
  foldl (λ s w, (array_assign w.1 w.2 s).2) st ws.

(** The array of the real parts, as an array of float64. *)
Definition real_parts (a : ndarray scalar) : ndarray scalar :=
  Ndarray (shape a) ((λ z, Real (real z)) <$> data a).

(** Whether the character [c] occurs in [s]. *)
Fixpoint occurs (c : ascii) (s : string) : bool :=
  match s with
  | EmptyString => false
  | String c' s' => Ascii.eqb c' c || occurs c s'
  end.

(** What [newaxis] makes of a stored array. *)
Definition normalized (a : ndarray scalar) : ndarray scalar :=
  if bool_decide (length (shape a) = 1) then add_axis a else a.

(** From [st] to [st'] nothing has changed but the lines printed, and of
    these none was taken back. *)
Definition only_printed (st st' : state) : Prop :=
  samples st' = samples st ∧ heap st' = heap st ∧ files st' = files st ∧
  ∃ lines, stdout st' = stdout st ++ lines.

(** A computation that, whatever its outcome, only prints. *)
Definition prints_only {A} (m : M A) : Prop := ∀ st, only_printed st (m st).2.

(** The tau of column [i] of a trace, or the exception of the estimator. *)
Definition column_tau (acor : ndarray float → outcome (float * float * float))
    (trace : ndarray scalar) (i : nat) : outcome float :=
  col <- slice_axis1 trace i ;
  ' (tau, _, _) <- acor (ndarray_real col) ;
  Return tau.

(** The lines that [posterior_summaries] prints for element [i] of a
    parameter: [col] are the draws of the element, [tau] its time scale,
    [npts] the number of draws, and [median], [std], [percentile] what
    numpy answers. *)
Definition summary_block (median std : ndarray scalar → pyobj)
    (percentile : ndarray scalar → float * float → pyobj)
    (name : string) (npts : nat) (col : ndarray scalar) (i : nat) (tau : float) :
    list (list pyobj) :=
  [ [PyStr "Posterior summary for parameter"; PyStr name; PyStr " element"; PyInt i];
    [PyStr rule];
    [PyStr "Effective number of independent samples:";
     PyFloat (float_of_nat npts / tau)%float];
    [PyStr "Median:"; median col];
    [PyStr "Standard deviation:"; std col];
    [PyStr "68% credibility interval:"; percentile col (16.0, 84.0)%float];
    [PyStr "95% credibility interval:"; percentile col (2.5, 97.5)%float];
    [PyStr "99% credibility interval:"; percentile col (0.5, 99.5)%float] ].

(** Column [i] of a matrix. *)
Definition column {A} (a : ndarray A) (i : nat) : ndarray A :=
  match slice_axis1 a i with
  | Return col => col
  | Raise _ => a
  end.

(** The array of the first of the sources, each the text of a file and the
    array read from it, whose header is [name]. *)
Fixpoint first_source (name : string) (sources : list (string * ndarray scalar)) :
    option (ndarray scalar) :=
  match sources with
  | [] => None
  | (text, array) :: sources' =>
      if bool_decide (readline text = name) then Some array
      else first_source name sources'
  end.

(** ** Stand-ins for the external libraries, to run the model on examples *)

(** An estimator that answers tau = 2 on every sequence of at least two
    draws and fails on a shorter one. *)
Definition acor_two (x : ndarray float) : outcome (float * float * float) :=
  if bool_decide (2 ≤ length (data x)) then Return (2, 0, 0)%float else Raise RuntimeError.

Definition no_statistic (a : ndarray scalar) : outcome pyobj := Return PyNone.
Definition no_percentile (a : ndarray scalar) (q : float * float) : outcome pyobj :=
  Return PyNone.

(** A reader for tables of unsigned decimal integers, in the manner of
    [np.genfromtxt]: the first [skip_header] lines are dropped, a line is
    split at blanks, a line with no field is skipped, the rows must have
    the same number of fields, and axes of length one are squeezed out of
    the result.  A field that is not a string of digits is refused here. *)
Fixpoint split_at (p : ascii → bool) (cs cur : list ascii) : list (list ascii) :=
  match cs with
  | [] => [rev cur]
  | c :: cs' => if p c then rev cur :: split_at p cs' [] else split_at p cs' (c :: cur)
  end.

Definition is_blank (c : ascii) : bool :=
  Ascii.eqb c " " || Ascii.eqb c "009" || Ascii.eqb c "013".

Definition fields (line : list ascii) : list (list ascii) :=
  filter (λ f, f ≠ []) (split_at is_blank line []).

Definition digit (c : ascii) : option nat :=
  let n := nat_of_ascii c in
  if bool_decide (48 ≤ n ≤ 57) then Some (n - 48) else None.

Fixpoint number (f : list ascii) (acc : nat) : option nat :=
  match f with
  | [] => Some acc
  | c :: f' => d ← digit c; number f' (10 * acc + d)
  end.

Fixpoint rows (ls : list (list ascii)) : outcome (list (list scalar)) :=
  match ls with
  | [] => Return []
  | line :: ls' =>
      match fields line with
      | [] => rows ls'
      | fs =>
          match mapM (λ f, number f 0) fs with
          | Some ns => rs <- rows ls' ; Return (((λ n, Real (float_of_nat n)) <$> ns) :: rs)
          | None => Raise ValueError
          end
      end
  end.

Definition read_table (text : string) (skip_header : nat) : outcome (ndarray scalar) :=
  rs <- rows (drop skip_header (split_at (Ascii.eqb LF) (list_ascii_of_string text) [])) ;
  match rs with
  | [] => Return (Ndarray [0] [])
  | r :: _ =>
      if forallb (λ r', length r' =? length r) rs then
        Return (Ndarray (filter (λ n, n ≠ 1) [length rs; length r]) (concat rs))
      else Raise ValueError
  end.

(** Three files: a table of three rows of two columns, a column with a
    blank row in it, and a table whose rows differ in length. *)
Definition table_file : string := "theta
1 2
3 4
5 6
".

Definition blank_row_file : string := "mu
1

2
".

Definition ragged_file : string := "sigma
1 2
3
".

Definition example_files : gmap string string :=
  {[ "theta.dat" := table_file; "mu.dat" := blank_row_file;
     "sigma.dat" := ragged_file ]}.

(** A file that is a header and nothing else, not even the end of its
    line, next to the column of [mu]. *)
Definition header_only_file : string := "mu".

Definition bare_files : gmap string string :=
  {[ "bare.dat" := header_only_file; "mu.dat" := blank_row_file ]}.

(** Sum, minimum and maximum from left to right. *)
Definition sum_seq (xs : list float) : float := foldl PrimFloat.add 0%float xs.



(** An estimator in the manner of [acor.acor], with its window of 10
    lags: a sequence of fewer than 50 draws is refused; the mean is
    subtracted, the autocovariances [C s] of the lags 0 to 10 are summed
    to [D = C 0 + 2 (C 1 + ... + C 10)], tau is [D / C 0] and sigma the
    square root of [D / L]; when tau is not below 2 the estimate is taken
    from the sums of the pairs of consecutive draws instead. *)
Definition autocovariance (x : list float) (imax s : nat) : float :=
  (foldl (λ c i, c + nth i x 0 * nth (i + s) x 0) 0 (seq 0 imax) /
   float_of_nat imax)%float.

Fixpoint pairwise_sums (x : list float) : list float :=
  match x with
  | x1 :: x2 :: rest => (x1 + x2)%float :: pairwise_sums rest
  | _ => []
  end.

Fixpoint acor_steps (fuel : nat) (x : list float) : outcome (float * float * float) :=
  match fuel with
  | 0 => Raise RuntimeError
  | S fuel' =>
      let L := length x in
      if L <? 5 * 10 then Raise RuntimeError
      else
        let mean := (sum_seq x / float_of_nat L)%float in
        let x := (λ xi, xi - mean)%float <$> x in
        let C := autocovariance x (L - 10) in
        let D := foldl (λ d s, d + 2 * C s)%float (C 0%nat) (seq 1 10) in
        if PrimFloat.ltb D 0 then Raise RuntimeError
        else
          let tau := (D / C 0%nat)%float in
          if PrimFloat.ltb (tau * 5) 10
          then Return (tau, mean, PrimFloat.sqrt (D / float_of_nat L))
          else
            match acor_steps fuel' (pairwise_sums x) with
            | Return (_, _, sigma) =>
                let D := (0.25 * sigma * sigma * float_of_nat L)%float in
                Return ((D / C 0%nat)%float, mean, PrimFloat.sqrt (D / float_of_nat L))
            | Raise e => Raise e
            end
  end.

Definition acor_window (x : ndarray float) : outcome (float * float * float) :=
  acor_steps (length (data x)) (data x).




(** ** The model at work *)

(** A store read from two of the files. *)
Definition example_store : state :=
  (generate_from_file read_table ["theta.dat"; "mu.dat"] (empty_state example_files)).2.

Definition theta_key : string := readline table_file.
Definition mu_key : string := readline blank_row_file.

Definition theta_trace : ndarray scalar :=
  Ndarray [3; 2] [Real 1; Real 2; Real 3; Real 4; Real 5; Real 6].
Definition mu_trace : ndarray scalar := Ndarray [2] [Real 1; Real 2].

(** A trace of sixty iterations of one complex-valued parameter, which
    alternates between 1 + i and -1 - i. *)
Definition alternating_trace : ndarray scalar :=
  Ndarray [60; 1] (concat (replicate 30 [Complex 1 1; Complex (-1) (-1)])).

(** Rectangles as contour paths. *)
Record box : Type := Box { xmin : float; xmax : float; ymin : float; ymax : float }.

Definition box_contains (b : box) (p : float * float) : bool :=
  PrimFloat.leb (xmin b) p.1 && PrimFloat.leb p.1 (xmax b) &&
  PrimFloat.leb (ymin b) p.2 && PrimFloat.leb p.2 (ymax b).

Definition example_collections : list (list box) :=
  [[Box 0 2 0 2; Box 4 6 4 6]; [Box 0 1 0 1]]%float.
Definition example_xs : ndarray float := Ndarray [3] [0.5; 5; 1]%float.
Definition example_ys : ndarray float := Ndarray [3] [0.5; 5; 9]%float.

(** * Properties *)

(** ** Running computations *)

Lemma bind_Return {A B} (m : M A) (k : A → M B) st a st' :
  m st = (Return a, st') → bind m k st = k a st'.
Proof. intros H. unfold bind, M_bind. by rewrite H. Qed.

Lemma bind_Raise {A B} (m : M A) (k : A → M B) st e st' :
  m st = (Raise e, st') → bind m k st = (Raise e, st').
Proof. intros H. unfold bind, M_bind. by rewrite H. Qed.

Lemma getitem_Some st name l :
  samples st !! name = Some l → getitem name st = (Return l, st).
Proof. intros H. unfold getitem. by rewrite H. Qed.

Lemma getitem_None st name :
  samples st !! name = None → getitem name st = (Raise (KeyError name), st).
Proof. intros H. unfold getitem. by rewrite H. Qed.

Lemma deref_Some st l a : heap st !! l = Some a → deref l st = (Return a, st).
Proof. intros H. unfold deref. by rewrite H. Qed.

Lemma contains_Some st name l :
  samples st !! name = Some l → contains name st = (Return true, st).
Proof.
  intros H. unfold contains. by rewrite bool_decide_eq_true_2; [|rewrite H; eauto].
Qed.

Lemma contains_None st name :
  samples st !! name = None → contains name st = (Return false, st).
Proof.
  intros H. unfold contains.
  by rewrite bool_decide_eq_false_2; [|rewrite H; apply is_Some_None].
Qed.

(** ** The autocorrelation time scale *)

Section Autocorr.

Variable acor : ndarray float → outcome (float * float * float).

Lemma autocorr_loop_Return trace indices acors r :
  autocorr_loop acor trace indices acors = Return r →
  ∃ taus, r = acors ++ taus ∧ Forall2 (tau_of acor trace) indices taus.
Proof.
  revert acors. induction indices as [|i indices IH]; intros acors; simpl.
  - intros [= <-]. exists []. by rewrite app_nil_r.
  - unfold bind, outcome_bind.
    destruct (slice_axis1 trace i) as [col|] eqn:Hcol; [|done].
    destruct (acor (ndarray_real col)) as [[[tau mean] sigma]|] eqn:Hacor; [|done].
    intros (taus & -> & Htaus)%IH. exists (tau :: taus). split.
    + by rewrite <- app_assoc.
    + constructor; [|done]. by exists col, mean, sigma.
Qed.

Lemma autocorr_timescale_Return trace timescale :
  autocorr_timescale acor trace = Return timescale →
  ∃ d, shape trace !! 1 = Some d ∧ shape timescale = [d] ∧
       Forall2 (tau_of acor trace) (seq 0 d) (data timescale).
Proof.
  unfold autocorr_timescale, shape_at, bind, outcome_bind.
  destruct (shape trace !! 1) as [d|]; [|done].
  destruct (autocorr_loop _ _ _ _) as [acors|] eqn:Hloop; [|done].
  intros [= <-]. apply autocorr_loop_Return in Hloop as (taus & -> & Htaus).
  exists d. simpl. split_and!; [done| |done].
  apply Forall2_length in Htaus. rewrite length_seq in Htaus. by rewrite Htaus.
Qed.

End Autocorr.

(** ** The effective number of samples *)

Lemma effective_samples_present acor st name l a :
  samples st !! name = Some l → heap st !! l = Some a →
  (effective_samples acor name st).1 =
    bind (shape_at a 0) (λ npts,
      bind (autocorr_timescale acor a) (λ timescale,
        Return (Some (int_div_array npts timescale)))).
Proof.
  intros Hname Hl. unfold effective_samples.
  rewrite (bind_Return _ _ _ _ _ (contains_Some _ _ _ Hname)). simpl.
  unfold bind, M_bind, print, getitem, deref, lift, ret, outcome_bind. simpl.
  rewrite Hname. simpl. rewrite Hl.
  destruct (shape_at a 0); [|done]. by destruct (autocorr_timescale acor a).
Qed.

(** C1. For a stored trace of [n] iterations and [d] dimensions,
    [effective_samples] returns [n / autocorr_timescale(trace)], elementwise
    and exactly: it fails exactly when the estimator fails, and otherwise
    its [i]-th value, for each of the [d] dimensions in order, is [n]
    divided by the tau that [acor] gives for column [i]. *)
Theorem effective_samples_is_npts_over_tau acor st name l a n d :
  samples st !! name = Some l → heap st !! l = Some a → shape a = [n; d] →
  (effective_samples acor name st).1 =
    match autocorr_timescale acor a with
    | Return timescale => Return (Some (int_div_array n timescale))
    | Raise e => Raise e
    end
  ∧ ∀ v, (effective_samples acor name st).1 = Return v →
      ∃ ess, v = Some ess ∧ shape ess = [d] ∧ length (data ess) = d ∧
        ∀ i, i < d →
          ∃ tau, tau_of acor a i tau ∧
                 data ess !! i = Some (float_of_nat n / tau)%float.
Proof.
  intros Hname Hl Hshape.
  rewrite (effective_samples_present acor st name l a) by done.
  unfold shape_at. rewrite Hshape. simpl. unfold bind at 1, outcome_bind at 1.
  split; [done|]. intros v.
  unfold bind, outcome_bind.
  destruct (autocorr_timescale acor a) as [timescale|] eqn:Htau; [|done].
  intros [= <-]. exists (int_div_array n timescale).
  apply autocorr_timescale_Return in Htau as (d' & Hd & Hsh & Htaus).
  rewrite Hshape in Hd. injection Hd as <-.
  pose proof (Forall2_length _ _ _ Htaus) as Hlen. rewrite length_seq in Hlen.
  split_and!; [done|done|by simpl; rewrite length_fmap| ].
  intros i Hi.
  destruct (lookup_lt_is_Some_2 (data timescale) i) as [tau Hi']; [lia|].
  exists tau. split.
  - eapply (Forall2_lookup_lr _ _ _ i i); [done| |done].
    rewrite lookup_seq. split; [done|lia].
  - simpl. by rewrite list_lookup_fmap, Hi'.
Qed.

(** ** Ingestion *)

Section Ingestion.

Variable genfromtxt : string → nat → outcome (ndarray scalar).

Lemma generate_from_file_cons fname filename st :
  generate_from_file genfromtxt (fname :: filename) st =
    match files st !! fname with
    | None => (Raise (IOError fname), st)
    | Some text =>
        match genfromtxt text 1 with
        | Raise e => (Raise e, st)
        | Return array =>
            generate_from_file genfromtxt filename (ingested st text array)
        end
    end.
Proof.
  simpl. unfold bind, M_bind, open, lift, alloc, contains, setitem, ret, ingested.
  destruct (files st !! fname) as [text|] eqn:Hfile; [|done]. rewrite Hfile.
  destruct (genfromtxt text 1) as [array|]; [|done]. simpl.
  destruct (samples st !! readline text) as [l0|] eqn:Hname.
  - by rewrite bool_decide_eq_true_2 by eauto.
  - by rewrite bool_decide_eq_false_2 by apply is_Some_None.
Qed.

Lemma fresh_not_allocated (h : gmap loc (ndarray scalar)) l a :
  h !! l = Some a → l ≠ fresh (dom h).
Proof.
  intros Hl ->. apply (is_fresh (dom h)). apply elem_of_dom. eauto.
Qed.

Lemma stored_Some st name tr :
  stored st name = Some tr ↔
  ∃ l, samples st !! name = Some l ∧ heap st !! l = Some tr.
Proof.
  unfold stored. destruct (samples st !! name) as [l|]; simpl.
  - split; [eauto|]. by intros (? & [= <-] & ?).
  - split; [done|]. by intros (? & ? & ?).
Qed.

Lemma ingested_stored st text array name tr :
  stored st name = Some tr → stored (ingested st text array) name = Some tr.
Proof.
  intros (l & Hname & Hl)%stored_Some. apply stored_Some. exists l.
  unfold ingested. simpl. split.
  - destruct (samples st !! readline text) eqn:Hfirst; [done|].
    rewrite lookup_insert_ne; [done|]. intros Heq. congruence.
  - rewrite lookup_insert_ne; [done|]. symmetry. by eapply fresh_not_allocated.
Qed.

Lemma ingested_new st text array :
  samples st !! readline text = None →
  stored (ingested st text array) (readline text) = Some array.
Proof.
  intros Hname. apply stored_Some. exists (fresh (dom (heap st))).
  unfold ingested. simpl. rewrite Hname. by rewrite !lookup_insert_eq.
Qed.

Lemma ingested_wf st text array : wf st → wf (ingested st text array).
Proof.
  intros Hwf name l. unfold ingested. simpl.
  destruct (samples st !! readline text) eqn:Hfirst.
  - intros [a Ha]%Hwf. exists a.
    rewrite lookup_insert_ne; [done|]. symmetry. by eapply fresh_not_allocated.
  - destruct (decide (readline text = name)) as [<-|Hne].
    + rewrite lookup_insert_eq. intros [= <-]. by rewrite lookup_insert_eq.
    + rewrite lookup_insert_ne by done. intros [a Ha]%Hwf. exists a.
      rewrite lookup_insert_ne; [done|]. symmetry. by eapply fresh_not_allocated.
Qed.

(** Whatever the sources and however the call ends, a trace that was
    stored stays stored, unchanged. *)
Lemma generate_from_file_preserves filename st name tr :
  stored st name = Some tr →
  stored (generate_from_file genfromtxt filename st).2 name = Some tr.
Proof.
  revert st. induction filename as [|fname filename IH]; intros st Hst; [done|].
  rewrite generate_from_file_cons.
  destruct (files st !! fname) as [text|]; [|done].
  destruct (genfromtxt text 1) as [array|]; [|done].
  apply IH. by apply ingested_stored.
Qed.

Lemma generate_from_file_wf filename st :
  wf st → wf (generate_from_file genfromtxt filename st).2.
Proof.
  revert st. induction filename as [|fname filename IH]; intros st Hst; [done|].
  rewrite generate_from_file_cons.
  destruct (files st !! fname) as [text|]; [|done].
  destruct (genfromtxt text 1) as [array|]; [|done].
  apply IH. by apply ingested_wf.
Qed.

End Ingestion.

Section IngestionClaims.

Variable genfromtxt : string → nat → outcome (ndarray scalar).

Lemma ingested_present st text array l :
  wf st → samples st !! readline text = Some l →
  ∀ name, stored (ingested st text array) name = stored st name.
Proof.
  intros Hwf Hfirst name. unfold stored, ingested. simpl. rewrite Hfirst.
  destruct (samples st !! name) as [l0|] eqn:Hname; [|done]. simpl.
  destruct (Hwf _ _ Hname) as [a Ha].
  rewrite lookup_insert_ne; [done|]. symmetry. by eapply fresh_not_allocated.
Qed.

Lemma ingested_has_name st text array :
  is_Some (samples (ingested st text array) !! readline text).
Proof.
  unfold ingested. simpl.
  destruct (samples st !! readline text) eqn:Hfirst; [by rewrite Hfirst|].
  by rewrite lookup_insert_eq.
Qed.

Lemma generate_from_file_one st fname text array :
  files st !! fname = Some text → genfromtxt text 1 = Return array →
  generate_from_file genfromtxt [fname] st = (Return (), ingested st text array).
Proof. intros Hfile Hread. by rewrite generate_from_file_cons, Hfile, Hread. Qed.

(** C5. Ingestion is first-write-wins.  When a source whose header is
    already a name of the store is ingested, the dictionary is unchanged
    and the trace stored under that name is the one that was there;
    ingesting the same source twice stores what ingesting it once
    stores; and when the header is not yet a name of the store, the
    parsed matrix is stored under it.  Every other stored trace is kept. *)
Theorem generate_from_file_first_write_wins st fname text array :
  wf st → files st !! fname = Some text → genfromtxt text 1 = Return array →
  let st' := (generate_from_file genfromtxt [fname] st).2 in
  (generate_from_file genfromtxt [fname] st).1 = Return () ∧
  (∀ l, samples st !! readline text = Some l →
     samples st' = samples st ∧ ∀ name, stored st' name = stored st name) ∧
  (samples st !! readline text = None →
     stored st' (readline text) = Some array) ∧
  (∀ name tr, stored st name = Some tr → stored st' name = Some tr) ∧
  (∀ name, stored (generate_from_file genfromtxt [fname; fname] st).2 name =
           stored st' name).
Proof.
  intros Hwf Hfile Hread st'. subst st'.
  rewrite (generate_from_file_cons _ fname [fname]), Hfile, Hread.
  rewrite !(generate_from_file_one _ fname text array) by done.
  cbn [fst snd]. split_and!; [done| | | |].
  - intros l Hfirst. split; [|by eapply ingested_present].
    unfold ingested. simpl. by rewrite Hfirst.
  - apply ingested_new.
  - intros name tr. apply ingested_stored.
  - intros name. destruct (ingested_has_name st text array) as [l Hl].
    eapply ingested_present; [|done]. by apply ingested_wf.
Qed.

Lemma generate_from_file_files filename st :
  files (generate_from_file genfromtxt filename st).2 = files st.
Proof.
  revert st. induction filename as [|fname filename IH]; intros st; [done|].
  rewrite generate_from_file_cons.
  destruct (files st !! fname) as [text|]; [|done].
  destruct (genfromtxt text 1) as [array|]; [|done].
  by rewrite IH.
Qed.

Lemma generate_from_file_app before after st :
  (generate_from_file genfromtxt before st).1 = Return () →
  generate_from_file genfromtxt (before ++ after) st =
    generate_from_file genfromtxt after (generate_from_file genfromtxt before st).2.
Proof.
  revert st. induction before as [|fname before IH]; intros st; [done|].
  rewrite <- app_comm_cons, !generate_from_file_cons.
  destruct (files st !! fname) as [text|]; [|done].
  destruct (genfromtxt text 1) as [array|]; [|done].
  apply IH.
Qed.

(** C7, as the code has it.  The class checks nothing in a source: a
    source fails exactly as [open] or [np.genfromtxt] fails on it, and
    any source these accept is ingested, whatever its rows.  When a
    source fails, the exception reaches the caller, the store is left
    exactly as the sources before it left it (nothing is stored for the
    failing source and nothing ingested earlier is undone), and the
    sources after it are not read. *)
Theorem generate_from_file_failure before fname after st e :
  (generate_from_file genfromtxt before st).1 = Return () →
  (files st !! fname = None ∧ e = IOError fname) ∨
  (∃ text, files st !! fname = Some text ∧ genfromtxt text 1 = Raise e) →
  generate_from_file genfromtxt (before ++ fname :: after) st =
    (Raise e, (generate_from_file genfromtxt before st).2) ∧
  (∀ name tr, stored st name = Some tr →
     stored (generate_from_file genfromtxt before st).2 name = Some tr) ∧
  (∀ st0 e0,
     (generate_from_file genfromtxt [fname] st0).1 = Raise e0 ↔
     (files st0 !! fname = None ∧ e0 = IOError fname) ∨
     (∃ text, files st0 !! fname = Some text ∧ genfromtxt text 1 = Raise e0)) ∧
  (∀ st0 text array, files st0 !! fname = Some text →
     genfromtxt text 1 = Return array →
     generate_from_file genfromtxt [fname] st0 = (Return (), ingested st0 text array)).
Proof.
  intros Hbefore Hfail. split_and!.
  - rewrite generate_from_file_app by done.
    rewrite generate_from_file_cons, generate_from_file_files.
    destruct Hfail as [[-> ->]|(text & -> & ->)]; done.
  - intros name tr. apply generate_from_file_preserves.
  - intros st0 e0. rewrite generate_from_file_cons.
    destruct (files st0 !! fname) as [text|] eqn:Hfile.
    + destruct (genfromtxt text 1) as [array|e1] eqn:Hread; simpl.
      * split; [done|]. intros [[? _]|(text' & [= <-] & Hread')]; congruence.
      * split.
        -- intros [= ->]. right. by exists text.
        -- intros [[? _]|(text' & [= <-] & Hread')]; congruence.
    + simpl. split.
      * intros [= <-]. by left.
      * intros [[_ ->]|(text' & ? & _)]; done.
  - intros st0 text array. apply generate_from_file_one.
Qed.

End IngestionClaims.

(** ** The header line *)

Lemma readline_header bare rest :
  occurs LF bare = false →
  readline (bare +:+ String LF rest) = bare +:+ String LF EmptyString.
Proof.
  induction bare as [|c bare IH]; simpl; [done|].
  intros [Hc Hbare]%orb_false_elim. rewrite Hc. by rewrite IH.
Qed.

Lemma append_char_ne (s : string) (c : ascii) : s ≠ s +:+ String c EmptyString.
Proof. induction s as [|c' s IH]; simpl; [done|]. intros [= Heq]. done. Qed.

Section Header.

Variable genfromtxt : string → nat → outcome (ndarray scalar).

(** C9. A file whose first line is the parameter name [bare] followed by
    a newline is ingested under the key [bare] with the newline: that key
    is a name of the store afterwards, the parsed trace is stored under
    it when it was not a name before, and what the store holds under the
    bare name is left as it was.  So [get_samples] with the bare name
    raises [KeyError] when the bare name was not a key of the store
    before, and returns a copy of the trace that was stored under the
    bare name before otherwise. *)
Theorem generate_from_file_keeps_newline st fname bare rest array :
  occurs LF bare = false →
  files st !! fname = Some (bare +:+ String LF rest) →
  genfromtxt (bare +:+ String LF rest) 1 = Return array →
  let header := bare +:+ String LF EmptyString in
  let st' := (generate_from_file genfromtxt [fname] st).2 in
  (generate_from_file genfromtxt [fname] st).1 = Return () ∧
  is_Some (samples st' !! header) ∧
  (samples st !! header = None → stored st' header = Some array) ∧
  samples st' !! bare = samples st !! bare ∧
  (samples st !! bare = None →
   get_samples bare st' = (Raise (KeyError bare), st')) ∧
  (∀ tr, stored st bare = Some tr →
     ∃ l st'', get_samples bare st' = (Return l, st'') ∧
               heap st'' !! l = Some tr).
Proof.
  intros Hbare Hfile Hread header st'. subst st'.
  rewrite (generate_from_file_one _ st fname _ array) by done. cbn [fst snd].
  pose proof (readline_header bare rest Hbare) as Hline. fold header in Hline.
  assert (Hkey : samples (ingested st (bare +:+ String LF rest) array) !! bare =
                 samples st !! bare).
  { unfold ingested. simpl. rewrite Hline.
    destruct (samples st !! header); [done|].
    rewrite lookup_insert_ne; [done|]. intros Heq. symmetry in Heq.
    by apply append_char_ne in Heq. }
  split_and!; [done| | |done| |].
  - rewrite <- Hline. apply ingested_has_name.
  - rewrite <- Hline. apply ingested_new.
  - intros Hnone. rewrite Hnone in Hkey.
    unfold get_samples, bind, M_bind. by rewrite (getitem_None _ _ Hkey).
  - intros tr Htr.
    apply (ingested_stored _ (bare +:+ String LF rest) array) in Htr.
    apply stored_Some in Htr as (l0 & Hname & Hl0).
    unfold get_samples, bind, M_bind.
    rewrite (getitem_Some _ _ _ Hname), (deref_Some _ _ _ Hl0).
    unfold alloc. eexists _, _. split; [done|]. simpl.
    rewrite lookup_insert_eq. by destruct tr.
Qed.

End Header.

(** ** Reading the store *)

Lemma copy_eq {A} (a : ndarray A) : copy a = a.
Proof. by destruct a. Qed.

Lemma get_samples_present st name l a :
  samples st !! name = Some l → heap st !! l = Some a →
  get_samples name st =
    (Return (fresh (dom (heap st))),
     State (samples st) (<[fresh (dom (heap st)) := a]> (heap st))
           (files st) (stdout st)).
Proof.
  intros Hname Hl. unfold get_samples, bind, M_bind.
  rewrite (getitem_Some _ _ _ Hname), (deref_Some _ _ _ Hl).
  unfold alloc. by rewrite copy_eq.
Qed.

Lemma get_samples_absent st name :
  samples st !! name = None → get_samples name st = (Raise (KeyError name), st).
Proof.
  intros Hname. unfold get_samples, bind, M_bind. by rewrite (getitem_None _ _ Hname).
Qed.

Lemma assign_all_cons w ws st :
  assign_all (w :: ws) st = assign_all ws (array_assign w.1 w.2 st).2.
Proof. done. Qed.

Lemma assign_all_samples ws st : samples (assign_all ws st) = samples st.
Proof.
  revert st. induction ws as [|w ws IH]; intros st; [done|].
  by rewrite assign_all_cons, IH.
Qed.

Lemma assign_all_other ws st l :
  Forall (λ w, w.1 ≠ l) ws → heap (assign_all ws st) !! l = heap st !! l.
Proof.
  revert st. induction ws as [|w ws IH]; intros st Hws; [done|].
  apply Forall_cons in Hws as [Hw Hws].
  rewrite assign_all_cons, IH by done. simpl.
  by rewrite lookup_insert_ne.
Qed.

Lemma assign_all_allocated ws st k :
  is_Some (heap st !! k) → is_Some (heap (assign_all ws st) !! k).
Proof.
  revert st. induction ws as [|w ws IH]; intros st Hk; [done|].
  rewrite assign_all_cons. apply IH. simpl.
  destruct (decide (w.1 = k)) as [->|Hne].
  - rewrite lookup_insert_eq. eauto.
  - by rewrite lookup_insert_ne.
Qed.

(** A call of [get_samples] in a state where the stored object holds [a]. *)
Lemma get_samples_fresh st name l a :
  samples st !! name = Some l → heap st !! l = Some a →
  ∃ l' st',
    get_samples name st = (Return l', st') ∧
    heap st !! l' = None ∧
    samples st' = samples st ∧ heap st' = <[l' := a]> (heap st).
Proof.
  intros Hname Hl. eexists _, _. split; [by eapply get_samples_present|].
  split_and!; [|done|done]. apply not_elem_of_dom, is_fresh.
Qed.

(** C6. For a stored name, [get_samples] returns a new array object with
    the stored contents and leaves the dictionary and every existing object
    as they were; a second call returns yet another object with the same
    contents; and whatever is assigned to the first copy, or to any array
    objects other than the stored one, before a later call, that call
    still returns a new object with the stored contents, and the stored
    array is still what it was. *)
Theorem get_samples_independent_copy st name l a :
  samples st !! name = Some l → heap st !! l = Some a →
  ∃ l1 st1,
    get_samples name st = (Return l1, st1) ∧
    heap st !! l1 = None ∧ l1 ≠ l ∧ heap st1 !! l1 = Some a ∧
    samples st1 = samples st ∧
    (∀ l0, l0 ≠ l1 → heap st1 !! l0 = heap st !! l0) ∧
    stored st1 name = Some a ∧
    (∃ l2 st2,
       get_samples name st1 = (Return l2, st2) ∧
       l2 ≠ l1 ∧ l2 ≠ l ∧ heap st2 !! l2 = Some a ∧ heap st2 !! l1 = Some a) ∧
    (∀ a', ∃ l2 st2,
       get_samples name (array_assign l1 a' st1).2 = (Return l2, st2) ∧
       l2 ≠ l1 ∧ l2 ≠ l ∧ heap st2 !! l2 = Some a ∧ heap st2 !! l1 = Some a' ∧
       stored st2 name = Some a) ∧
    (∀ ws, Forall (λ w, w.1 ≠ l) ws → ∃ l2 st2,
       get_samples name (assign_all ws st1) = (Return l2, st2) ∧
       l2 ≠ l1 ∧ l2 ≠ l ∧ heap st2 !! l2 = Some a ∧ stored st2 name = Some a).
Proof.
  intros Hname Hl.
  destruct (get_samples_fresh st name l a Hname Hl) as (l1 & st1 & Hget & Hl1 & Hs1 & Hh1).
  assert (Hne : l1 ≠ l) by congruence.
  assert (Hcopy : heap st1 !! l1 = Some a) by by rewrite Hh1, lookup_insert_eq.
  assert (Hlater : ∀ ws, Forall (λ w, w.1 ≠ l) ws → ∃ l2 st2,
    get_samples name (assign_all ws st1) = (Return l2, st2) ∧
    l2 ≠ l1 ∧ l2 ≠ l ∧ heap st2 !! l2 = Some a ∧ stored st2 name = Some a ∧
    heap st2 !! l1 = heap (assign_all ws st1) !! l1).
  { intros ws Hws.
    assert (Hname' : samples (assign_all ws st1) !! name = Some l)
      by by rewrite assign_all_samples, Hs1.
    assert (Hl' : heap (assign_all ws st1) !! l = Some a).
    { rewrite assign_all_other by done. by rewrite Hh1, lookup_insert_ne. }
    destruct (get_samples_fresh _ name l a Hname' Hl')
      as (l2 & st2 & Hget2 & Hl2 & Hs2 & Hh2).
    assert (l2 ≠ l1).
    { intros ->. destruct (assign_all_allocated ws st1 l1) as [? Hsome]; [eauto|].
      congruence. }
    assert (l2 ≠ l) by congruence.
    exists l2, st2. split_and!; [done|done|done| | |].
    - by rewrite Hh2, lookup_insert_eq.
    - apply stored_Some. exists l. rewrite Hs2, Hh2. split; [done|].
      by rewrite lookup_insert_ne.
    - rewrite Hh2. by rewrite lookup_insert_ne. }
  exists l1, st1. split_and!; [done|done|done|done|done| | | | |].
  - intros l0 Hl0. by rewrite Hh1, lookup_insert_ne.
  - apply stored_Some. exists l. rewrite Hs1, Hh1. split; [done|].
    by rewrite lookup_insert_ne.
  - destruct (Hlater []) as (l2 & st2 & ? & ? & ? & ? & ? & Hsame); [by constructor|].
    exists l2, st2. split_and!; [done|done|done|done|]. by rewrite Hsame.
  - intros a'.
    destruct (Hlater [(l1, a')]) as (l2 & st2 & ? & ? & ? & ? & ? & Hsame).
    { by constructor. }
    exists l2, st2. split_and!; [done|done|done|done| |done].
    rewrite Hsame. unfold assign_all. simpl. by rewrite lookup_insert_eq.
  - intros ws Hws.
    destruct (Hlater ws Hws) as (l2 & st2 & ? & ? & ? & ? & ? & _).
    by exists l2, st2.
Qed.

(** ** Names that are not in the store, and traces that are not matrices *)

Section Queries.

Variable acor : ndarray float → outcome (float * float * float).
Variable np_median np_std : ndarray scalar → outcome pyobj.
Variable np_percentile : ndarray scalar → float * float → outcome pyobj.

(** C4, as the code has it.  For a name that is not in the store,
    [get_samples] and [posterior_summaries] raise [KeyError] and leave
    the state as it was, while [effective_samples] raises nothing: it
    prints a warning and returns [None]. *)
Theorem absent_name st name :
  samples st !! name = None →
  get_samples name st = (Raise (KeyError name), st) ∧
  posterior_summaries acor np_median np_std np_percentile name st =
    (Raise (KeyError name), st) ∧
  effective_samples acor name st =
    (Return None,
     printed st [PyStr "WARNING: sampler does not have"; PyStr name]).
Proof.
  intros Hname. split_and!.
  - by apply get_samples_absent.
  - unfold posterior_summaries, bind, M_bind.
    by rewrite (getitem_None _ _ Hname).
  - unfold effective_samples, bind, M_bind.
    by rewrite (contains_None _ _ Hname).
Qed.

Lemma autocorr_timescale_1d (a : ndarray scalar) n :
  shape a = [n] → autocorr_timescale acor a = Raise IndexError.
Proof. intros Hshape. unfold autocorr_timescale, shape_at. by rewrite Hshape. Qed.

Lemma effective_samples_1d st name l a n :
  samples st !! name = Some l → heap st !! l = Some a → shape a = [n] →
  effective_samples acor name st =
    (Raise IndexError, printed st [PyStr "Calculating effective number of samples"]).
Proof.
  intros Hname Hl Hshape. unfold effective_samples.
  rewrite (bind_Return _ _ _ _ _ (contains_Some _ _ _ Hname)). simpl.
  unfold bind, M_bind, print, getitem, deref, lift. simpl.
  rewrite Hname. simpl. rewrite Hl, (autocorr_timescale_1d a n Hshape).
  unfold shape_at. by rewrite Hshape.
Qed.

(** The test [traces.ndim == 1] of [posterior_summaries] comes after the
    call of [effective_samples]: when that call returns, the trace is not
    one-dimensional, and the branch of the test is not taken. *)
Lemma effective_samples_returns_not_1d st name l a v st' :
  samples st !! name = Some l → heap st !! l = Some a →
  effective_samples acor name st = (Return v, st') → ndim a ≠ 1.
Proof.
  intros Hname Hl Hess Hndim. unfold ndim in Hndim.
  destruct (shape a) as [|n [|]] eqn:Hshape; try done.
  by rewrite (effective_samples_1d st name l a n) in Hess.
Qed.

(** C10. A stored trace that is a one-dimensional array makes
    [autocorr_timescale] and [effective_samples] raise [IndexError]
    (from [trace.shape[1]]), and [posterior_summaries], which calls
    [effective_samples] before it looks at [traces.ndim], raise it too,
    having printed no summary: the branch for [traces.ndim == 1] is not
    reached with such a trace. *)
Theorem one_dimensional_trace st name l a n :
  samples st !! name = Some l → heap st !! l = Some a → shape a = [n] →
  autocorr_timescale acor a = Raise IndexError ∧
  effective_samples acor name st =
    (Raise IndexError,
     printed st [PyStr "Calculating effective number of samples"]) ∧
  posterior_summaries acor np_median np_std np_percentile name st =
    (Raise IndexError,
     printed st [PyStr "Calculating effective number of samples"]).
Proof.
  intros Hname Hl Hshape.
  pose proof (effective_samples_1d st name l a n Hname Hl Hshape) as Hess.
  split_and!; [by eapply autocorr_timescale_1d|done|].
  unfold posterior_summaries, bind, M_bind.
  by rewrite (getitem_Some _ _ _ Hname), (deref_Some _ _ _ Hl), Hess.
Qed.

End Queries.

(** ** Normalizing the dimensions *)

(** [newaxis] turns a stored one-dimensional trace of [n] draws into an
    [n] by 1 matrix of the same draws. *)
Lemma newaxis_step_1d st name l a n :
  samples st !! name = Some l → heap st !! l = Some a → shape a = [n] →
  ∃ st',
    newaxis_step name st = (Return (), st') ∧
    stored st' name = Some (Ndarray [n; 1] (data a)).
Proof.
  intros Hname Hl Hshape. eexists. unfold newaxis_step, bind, M_bind.
  rewrite (getitem_Some _ _ _ Hname), (deref_Some _ _ _ Hl), Hshape.
  simpl. split; [done|]. apply stored_Some. eexists. simpl.
  rewrite lookup_insert_eq. split; [done|]. rewrite lookup_insert_eq.
  unfold add_axis. by rewrite Hshape.
Qed.

(** ** Complex-valued traces *)

Lemma flat_map_fmap {A B C} (f : A → B) (g : C → list A) (l : list C) :
  f <$> flat_map g l = flat_map (λ x, f <$> g x) l.
Proof.
  induction l as [|x l IH]; simpl; [done|]. by rewrite fmap_app, IH.
Qed.

Lemma slice_axis1_fmap {A B} (f : A → B) (a : ndarray A) i :
  slice_axis1 (Ndarray (shape a) (f <$> data a)) i =
    match slice_axis1 a i with
    | Return col => Return (Ndarray (shape col) (f <$> data col))
    | Raise e => Raise e
    end.
Proof.
  unfold slice_axis1. simpl.
  destruct (shape a) as [|n [|d rest]]; [done|done|].
  case_bool_decide; [|done]. simpl. f_equal. f_equal.
  rewrite flat_map_fmap. apply flat_map_ext. intros k.
  by rewrite fmap_take, fmap_drop.
Qed.

Lemma ndarray_real_real_parts (a : ndarray scalar) :
  ndarray_real (real_parts a) = ndarray_real a.
Proof.
  unfold ndarray_real, real_parts. simpl. f_equal.
  rewrite <- list_fmap_compose. by apply list_fmap_ext.
Qed.

Section Complex.

Variable acor : ndarray float → outcome (float * float * float).

Lemma autocorr_loop_real_parts trace indices acors :
  autocorr_loop acor (real_parts trace) indices acors =
  autocorr_loop acor trace indices acors.
Proof.
  revert acors. induction indices as [|i indices IH]; intros acors; [done|].
  simpl. unfold real_parts at 1. rewrite slice_axis1_fmap.
  unfold bind, outcome_bind.
  destruct (slice_axis1 trace i) as [col|]; [|done].
  change (Ndarray (shape col) ((λ z, Real (real z)) <$> data col))
    with (real_parts col).
  rewrite ndarray_real_real_parts.
  destruct (acor (ndarray_real col)) as [[[tau mean] sigma]|]; [|done].
  apply IH.
Qed.

(** C8, as the code has it.  [autocorr_timescale] does not reject a
    complex-valued trace: it hands the real part of each column to
    [acor], so its result on a trace, whatever the estimator, is its
    result on the float64 array of the real parts, and each tau it
    returns is the estimator's output on the real part of a column. *)
Theorem autocorr_timescale_takes_real_part trace :
  autocorr_timescale acor trace = autocorr_timescale acor (real_parts trace) ∧
  ∀ timescale, autocorr_timescale acor trace = Return timescale →
    ∀ i tau, data timescale !! i = Some tau →
      ∃ col mean sigma,
        slice_axis1 trace i = Return col ∧
        acor (Ndarray (shape col) (real <$> data col)) = Return (tau, mean, sigma).
Proof.
  split.
  - unfold autocorr_timescale, shape_at. simpl.
    destruct (shape trace !! 1) as [d|]; [|done].
    unfold bind, outcome_bind. by rewrite autocorr_loop_real_parts.
  - intros timescale (d & _ & _ & Htaus)%autocorr_timescale_Return i tau Hi.
    destruct (Forall2_lookup_r _ _ _ _ _ Htaus Hi) as (j & Hj & Htau).
    apply lookup_seq in Hj as [-> _]. simpl in Htau.
    destruct Htau as (col & mean & sigma & ? & ?). by exists col, mean, sigma.
Qed.

End Complex.

(** ** Stragglers *)

Section StragglersClaims.

Variable path : Type.
Variable contains_point : path → float * float → bool.

Lemma True_in_found outer p :
  True_in ((λ o, contains_point o p) <$> outer) = inside contains_point outer p.
Proof.
  unfold True_in, inside. induction outer as [|o outer IH]; [done|].
  cbn. destruct (contains_point o p); cbn; [done|]. apply IH.
Qed.

Lemma stragglers_loop_filter outer trace1 trace2 k xs ys sx sy :
  drop k (data trace1) = xs → drop k (data trace2) = ys →
  length xs ≤ length ys →
  let kept := List.filter (λ p, negb (inside contains_point outer p)) (zip xs ys) in
  stragglers_loop contains_point outer trace1 trace2 (seq k (length xs)) sx sy =
    Return (sx ++ kept.*1, sy ++ kept.*2).
Proof.
  revert k ys sx sy. induction xs as [|x xs IH]; intros k ys sx sy Hxs Hys Hlen.
  { simpl. by rewrite !app_nil_r. }
  destruct ys as [|y ys]; [simpl in Hlen; lia|].
  cbn [length seq stragglers_loop]. unfold item.
  assert (data trace1 !! k = Some x) as ->.
  { rewrite <- (Nat.add_0_r k), <- lookup_drop. by rewrite Hxs. }
  assert (data trace2 !! k = Some y) as ->.
  { rewrite <- (Nat.add_0_r k), <- lookup_drop. by rewrite Hys. }
  cbn [bind outcome_bind]. rewrite True_in_found.
  assert (drop (S k) (data trace1) = xs) as Hxs'.
  { replace (S k) with (k + 1) by lia. by rewrite <- drop_drop, Hxs. }
  assert (drop (S k) (data trace2) = ys) as Hys'.
  { replace (S k) with (k + 1) by lia. by rewrite <- drop_drop, Hys. }
  simpl in Hlen. cbn [zip zip_with List.filter].
  destruct (inside contains_point outer (x, y)); cbn [negb].
  - rewrite (IH (S k) ys) by (done || lia). done.
  - rewrite (IH (S k) ys) by (done || lia).
    cbn [fmap list_fmap fst snd]. by rewrite <- !app_assoc.
Qed.

Lemma inside_true outer p :
  inside contains_point outer p = true ↔ ∃ o, o ∈ outer ∧ contains_point o p = true.
Proof.
  unfold inside. rewrite existsb_exists.
  split; intros (o & Ho & Hp); exists o; split; try done; by apply list_elem_of_In.
Qed.

(** C3. The stragglers are classified against the paths of the first
    contour level only: a point [(x_i, y_i)] is inside when some path of
    that level contains it, and the points collected in [sx], [sy] are,
    in order, exactly the points that no path of that level contains. *)
Theorem stragglers_outside_outer_level collections outer trace1 trace2 :
  collections !! 0 = Some outer →
  shape trace1 = [length (data trace1)] →
  length (data trace1) ≤ length (data trace2) →
  let points := zip (data trace1) (data trace2) in
  ∃ sx sy,
    stragglers contains_point collections trace1 trace2 = Return (sx, sy) ∧
    length sx = length sy ∧
    zip sx sy = List.filter (λ p, negb (inside contains_point outer p)) points ∧
    (∀ p, inside contains_point outer p = true ↔ ∃ o, o ∈ outer ∧ contains_point o p = true) ∧
    (∀ p, p ∈ zip sx sy ↔
          p ∈ points ∧ ∀ o, o ∈ outer → contains_point o p = false).
Proof.
  intros Hcoll Hshape Hlen points.
  set (kept := List.filter (λ p, negb (inside contains_point outer p)) points).
  exists (kept.*1), (kept.*2).
  assert (Hzip : zip (kept.*1) (kept.*2) = kept) by apply zip_fst_snd.
  split_and!.
  - unfold stragglers, shape_at. rewrite Hshape, Hcoll. cbn [lookup list_lookup bind outcome_bind].
    by rewrite (stragglers_loop_filter outer trace1 trace2 0
                  (data trace1) (data trace2) [] []).
  - by rewrite !length_fmap.
  - done.
  - apply inside_true.
  - intros p. rewrite Hzip. unfold kept.
    rewrite list_elem_of_In, filter_In, <- list_elem_of_In.
    rewrite negb_true_iff. split; intros [Hp Hout]; (split; [done|]).
    + intros o Ho. destruct (contains_point o p) eqn:Hc; [|done].
      assert (inside contains_point outer p = true) by (apply inside_true; eauto). congruence.
    + destruct (inside contains_point outer p) eqn:Hin; [|done].
      apply inside_true in Hin as (o & Ho & Hc). rewrite (Hout o Ho) in Hc. done.
Qed.

End StragglersClaims.

(** ** Contour levels *)

Section ContourLevelsClaims.

Variable np_sum : list float → float.
Variable np_min np_max : ndarray float → outcome float.
Variable bisect : (float → float) → float → float → outcome float.





End ContourLevelsClaims.


(** ** Methods that only print *)

Lemma only_printed_refl st : only_printed st st.
Proof. split_and!; try done. exists []. by rewrite app_nil_r. Qed.

Lemma only_printed_trans st1 st2 st3 :
  only_printed st1 st2 → only_printed st2 st3 → only_printed st1 st3.
Proof.
  intros (Hs & Hh & Hf & lines & Ho) (Hs' & Hh' & Hf' & lines' & Ho').
  split_and!; try congruence.
  exists (lines ++ lines'). by rewrite Ho', Ho, app_assoc.
Qed.

Lemma prints_only_ret {A} (a : A) : prints_only (ret a).
Proof. intros st. apply only_printed_refl. Qed.

Lemma prints_only_lift {A} (o : outcome A) : prints_only (lift o).
Proof. intros st. apply only_printed_refl. Qed.

Lemma prints_only_print args : prints_only (print args).
Proof. intros st. split_and!; try done. by exists [args]. Qed.

Lemma prints_only_contains name : prints_only (contains name).
Proof. intros st. apply only_printed_refl. Qed.

Lemma prints_only_getitem name : prints_only (getitem name).
Proof. intros st. unfold getitem. destruct (_ !! _); apply only_printed_refl. Qed.

Lemma prints_only_deref l : prints_only (deref l).
Proof. intros st. unfold deref. destruct (_ !! _); apply only_printed_refl. Qed.

Lemma prints_only_bind {A B} (m : M A) (k : A → M B) :
  prints_only m → (∀ a, prints_only (k a)) → prints_only (bind m k).
Proof.
  intros Hm Hk st. unfold bind, M_bind. specialize (Hm st).
  destruct (m st) as [[a|e] st1]; simpl in Hm; [|done].
  eapply only_printed_trans; [done|]. apply Hk.
Qed.

Create HintDb prints.
#[local] Hint Resolve prints_only_ret prints_only_lift prints_only_print
  prints_only_contains prints_only_getitem prints_only_deref : prints.

(** Goes through a computation made of the steps above. *)
Ltac prints_only_steps :=
  repeat first
    [ apply prints_only_bind; [|intros ?]
    | match goal with |- prints_only (if ?b then _ else _) => destruct b end
    | solve [auto with prints] ].

Section OnlyPrints.

Variable acor : ndarray float → outcome (float * float * float).
Variable np_median np_std : ndarray scalar → outcome pyobj.
Variable np_percentile : ndarray scalar → float * float → outcome pyobj.

Lemma prints_only_effective_samples name :
  prints_only (effective_samples acor name).
Proof. unfold effective_samples. prints_only_steps. Qed.

Lemma prints_only_print_statistics draws :
  prints_only (print_statistics np_median np_std np_percentile draws).
Proof. unfold print_statistics. prints_only_steps. Qed.

Lemma prints_only_summaries_loop name traces v indices :
  prints_only (summaries_loop np_median np_std np_percentile name traces v indices).
Proof.
  induction indices as [|i indices IH]; simpl; [auto with prints|].
  prints_only_steps; first [apply prints_only_print_statistics|apply IH].
Qed.

(** X1. [effective_samples] and [posterior_summaries] only read the store:
    whatever the name and however the call ends, the dictionary, the array
    objects and the files are as before, and the lines printed before the
    call are still there, in front of the lines of the call. *)
Theorem summaries_only_print name :
  prints_only (effective_samples acor name) ∧
  prints_only (posterior_summaries acor np_median np_std np_percentile name).
Proof.
  split; [apply prints_only_effective_samples|].
  unfold posterior_summaries.
  prints_only_steps;
    first [ apply prints_only_effective_samples
          | apply prints_only_print_statistics
          | apply prints_only_summaries_loop ].
Qed.

End OnlyPrints.

(** ** The time scales of the columns *)

Section ColumnTau.

Variable acor : ndarray float → outcome (float * float * float).

Lemma autocorr_loop_cons trace i indices acors :
  autocorr_loop acor trace (i :: indices) acors =
    match column_tau acor trace i with
    | Return tau => autocorr_loop acor trace indices (acors ++ [tau])
    | Raise e => Raise e
    end.
Proof.
  simpl. unfold column_tau, bind, outcome_bind.
  destruct (slice_axis1 trace i) as [col|]; [|done].
  by destruct (acor (ndarray_real col)) as [[[tau mean] sigma]|].
Qed.

Lemma autocorr_loop_seq_Return trace s m acors r :
  autocorr_loop acor trace (seq s m) acors = Return r ↔
  ∃ taus, r = acors ++ taus ∧
    Forall2 (λ i tau, column_tau acor trace i = Return tau) (seq s m) taus.
Proof.
  revert s acors. induction m as [|m IH]; intros s acors.
  - simpl. split.
    + intros [= <-]. exists []. by rewrite app_nil_r.
    + intros (taus & -> & ->%Forall2_nil_inv_l). by rewrite app_nil_r.
  - cbn [seq]. rewrite autocorr_loop_cons.
    destruct (column_tau acor trace s) as [tau|e] eqn:Hs.
    + rewrite IH. split.
      * intros (taus & -> & Htaus). exists (tau :: taus).
        rewrite <- app_assoc. split; [done|]. by constructor.
      * intros (taus & -> & Htaus).
        apply Forall2_cons_inv_l in Htaus as (tau' & taus' & Htau & Htaus & ->).
        exists taus'. rewrite <- app_assoc.
        assert (tau' = tau) as -> by congruence. done.
    + split; [done|]. intros (taus & _ & Htaus).
      apply Forall2_cons_inv_l in Htaus as (tau' & taus' & Htau & _). congruence.
Qed.

Lemma column_taus_unique trace indices taus taus' :
  Forall2 (λ i tau, column_tau acor trace i = Return tau) indices taus →
  Forall2 (λ i tau, column_tau acor trace i = Return tau) indices taus' →
  taus = taus'.
Proof.
  intros Htaus. revert taus'.
  induction Htaus as [|i tau indices taus Hi _ IH]; intros taus' Htaus'.
  - by apply Forall2_nil_inv_l in Htaus' as ->.
  - apply Forall2_cons_inv_l in Htaus' as (tau' & ts' & Hi' & Hts & ->).
    f_equal; [congruence|by apply IH].
Qed.

Lemma autocorr_loop_seq_Raise trace s m acors e :
  autocorr_loop acor trace (seq s m) acors = Raise e ↔
  ∃ j, s ≤ j < s + m ∧ column_tau acor trace j = Raise e ∧
    ∀ i, s ≤ i < j → ∃ tau, column_tau acor trace i = Return tau.
Proof.
  revert s acors. induction m as [|m IH]; intros s acors.
  - simpl. split; [done|]. intros (j & ? & _). lia.
  - cbn [seq]. rewrite autocorr_loop_cons.
    destruct (column_tau acor trace s) as [tau|e'] eqn:Hs.
    + rewrite IH. split.
      * intros (j & Hj & He & Hbefore). exists j. split_and!; [lia|lia|done|].
        intros i Hi. destruct (decide (i = s)) as [->|]; [eauto|].
        apply Hbefore. lia.
      * intros (j & Hj & He & Hbefore). exists j.
        assert (j ≠ s) by congruence.
        split_and!; [lia|lia|done|]. intros i Hi. apply Hbefore. lia.
    + split.
      * intros [= ->]. exists s. split_and!; [lia|lia|done|]. intros i Hi. lia.
      * intros (j & Hj & He & Hbefore).
        destruct (decide (j = s)) as [->|]; [congruence|].
        destruct (Hbefore s) as [tau Htau]; [lia|]. congruence.
Qed.

(** X2. [autocorr_timescale] answers for all the columns or for none.  It
    returns exactly when the trace has a second axis and the estimator
    answers on every column, and then holds the taus of the columns in
    order; it raises [IndexError] when the trace has no second axis, and
    otherwise the exception of the first column on which the estimator
    fails, the columns before it having been estimated. *)
Theorem autocorr_timescale_all_or_nothing trace :
  (∀ timescale, autocorr_timescale acor trace = Return timescale ↔
     ∃ d, shape trace !! 1 = Some d ∧ shape timescale = [d] ∧
       Forall2 (λ i tau, column_tau acor trace i = Return tau)
               (seq 0 d) (data timescale)) ∧
  (∀ e, autocorr_timescale acor trace = Raise e ↔
     (shape trace !! 1 = None ∧ e = IndexError) ∨
     ∃ d j, shape trace !! 1 = Some d ∧ j < d ∧
       column_tau acor trace j = Raise e ∧
       ∀ i, i < j → ∃ tau, column_tau acor trace i = Return tau).
Proof.
  unfold autocorr_timescale, shape_at.
  destruct (shape trace !! 1) as [d|] eqn:Hd; cbn [bind outcome_bind].
  - destruct (autocorr_loop acor trace (seq 0 d) []) as [acors|e'] eqn:Hloop.
    + apply autocorr_loop_seq_Return in Hloop as (taus & -> & Htaus).
      pose proof (Forall2_length _ _ _ Htaus) as Hlen. rewrite length_seq in Hlen.
      cbn [bind outcome_bind app]. split.
      * intros [sh ts]. split.
        -- intros [= <- <-]. exists d. by rewrite <- Hlen.
        -- intros (d' & [= <-] & Hsh & Htaus'). simpl in *. subst sh.
           rewrite Hlen. by rewrite (column_taus_unique _ _ _ _ Htaus Htaus').
      * intros e. split; [done|]. intros [[? _]|(d' & j & [= <-] & Hj & He & _)]; [done|].
        destruct (Forall2_lookup_l _ _ _ j j Htaus) as (tau & _ & Htau).
        { apply lookup_seq. lia. }
        simpl in Htau. congruence.
    + cbn [bind outcome_bind]. split.
      * intros timescale. split; [done|]. intros (d' & [= <-] & _ & Htaus).
        assert (autocorr_loop acor trace (seq 0 d) [] = Return ([] ++ data timescale))
          as Hret by (apply autocorr_loop_seq_Return; eauto).
        congruence.
      * intros e. split.
        -- intros [= ->]. apply autocorr_loop_seq_Raise in Hloop as (j & Hj & He & Hb).
           right. exists d, j. split_and!; [done|lia|done|].
           intros i Hi. apply Hb. lia.
        -- intros [[? _]|(d' & j & [= <-] & Hj & He & Hb)]; [done|].
           assert (autocorr_loop acor trace (seq 0 d) [] = Raise e) as Hr.
           { apply autocorr_loop_seq_Raise. exists j. split_and!; [lia|lia|done|].
             intros i Hi. apply Hb. lia. }
           congruence.
  - split.
    + intros timescale. split; [done|]. intros (d & ? & _). done.
    + intros e. split.
      * intros [= <-]. by left.
      * intros [[_ ->]|(d & j & ? & _)]; done.
Qed.

End ColumnTau.

(** ** [newaxis] on the whole store *)

Lemma normalized_ndim a : ndim (normalized a) ≠ 1.
Proof.
  unfold normalized, ndim. case_bool_decide as Hd; [|done].
  unfold add_axis. simpl. rewrite length_app, Hd. simpl. lia.
Qed.

Lemma normalized_idemp a : normalized (normalized a) = normalized a.
Proof.
  pose proof (normalized_ndim a) as Hd. unfold ndim in Hd.
  unfold normalized at 1. by rewrite bool_decide_eq_false_2.
Qed.

Lemma newaxis_step_run st key l :
  wf st → samples st !! key = Some l →
  ∃ st1,
    newaxis_step key st = (Return (), st1) ∧ wf st1 ∧
    dom (samples st1) = dom (samples st) ∧
    files st1 = files st ∧ stdout st1 = stdout st ∧
    ∀ name, stored st1 name =
      if bool_decide (name = key) then normalized <$> stored st name
      else stored st name.
Proof.
  intros Hwf Hkey. destruct (Hwf _ _ Hkey) as [a Ha].
  assert (Hstored : stored st key = Some a) by (apply stored_Some; eauto).
  unfold newaxis_step, bind, M_bind.
  rewrite (getitem_Some _ _ _ Hkey), (deref_Some _ _ _ Ha).
  case_bool_decide as Hd.
  - eexists. split; [done|]. simpl.
    set (l' := fresh (dom (heap st))).
    assert (Hother : ∀ name l0, samples st !! name = Some l0 →
              (<[l':=add_axis a]> (heap st)) !! l0 = heap st !! l0).
    { intros name l0 Hname. destruct (Hwf _ _ Hname) as [a0 Ha0].
      rewrite lookup_insert_ne; [done|]. symmetry. by eapply fresh_not_allocated. }
    split_and!; try done.
    + intros name l0. simpl. destruct (decide (key = name)) as [<-|Hne].
      * rewrite lookup_insert_eq. intros [= <-]. by rewrite lookup_insert_eq.
      * rewrite lookup_insert_ne by done. intros Hname.
        rewrite (Hother _ _ Hname). by eapply Hwf.
    + rewrite dom_insert_L. apply subseteq_union_1_L, singleton_subseteq_l.
      by eapply elem_of_dom_2.
    + intros name. unfold stored at 1. simpl. case_bool_decide as Hname.
      * subst name. rewrite lookup_insert_eq. simpl. rewrite lookup_insert_eq.
        rewrite Hstored. simpl. unfold normalized. by rewrite bool_decide_eq_true_2.
      * rewrite lookup_insert_ne by done. unfold stored.
        destruct (samples st !! name) as [l0|] eqn:Hl0; [|done]. simpl.
        by eapply Hother.
  - exists st. split_and!; try done. intros name. case_bool_decide as Hname; [|done].
    subst name. rewrite Hstored. simpl. unfold normalized.
    by rewrite bool_decide_eq_false_2.
Qed.

Lemma newaxis_loop_run ks st :
  wf st → NoDup ks → (∀ k, k ∈ ks → is_Some (samples st !! k)) →
  ∃ st',
    newaxis_loop ks st = (Return (), st') ∧ wf st' ∧
    dom (samples st') = dom (samples st) ∧
    files st' = files st ∧ stdout st' = stdout st ∧
    ∀ name, stored st' name =
      if bool_decide (name ∈ ks) then normalized <$> stored st name
      else stored st name.
Proof.
  revert st. induction ks as [|key ks IH]; intros st Hwf Hnodup Hkeys.
  { exists st. split_and!; [done|done|done|done|done|]. intros name.
    rewrite bool_decide_eq_false_2; [done|]. apply not_elem_of_nil. }
  apply NoDup_cons in Hnodup as [Hkey Hnodup].
  destruct (Hkeys key) as [l Hl]; [by left|].
  destruct (newaxis_step_run st key l Hwf Hl)
    as (st1 & Hstep & Hwf1 & Hdom1 & Hf1 & Ho1 & Hstored1).
  destruct (IH st1 Hwf1 Hnodup) as (st' & Hloop & Hwf' & Hdom' & Hf' & Ho' & Hstored').
  { intros k Hk. apply elem_of_dom. rewrite Hdom1. apply elem_of_dom, Hkeys. by right. }
  exists st'. split_and!; [|done|congruence|congruence|congruence|].
  { simpl. unfold bind, M_bind. by rewrite Hstep. }
  intros name. rewrite Hstored', Hstored1.
  destruct (decide (name = key)) as [->|Hne].
  - rewrite (bool_decide_eq_false_2 (key ∈ ks)) by done.
    rewrite bool_decide_eq_true_2 by done.
    rewrite bool_decide_eq_true_2; [done|by left].
  - rewrite (bool_decide_eq_false_2 (name = key)) by done.
    destruct (decide (name ∈ ks)) as [Hin|Hnotin].
    + rewrite !bool_decide_eq_true_2; [done|by right|done].
    + rewrite !bool_decide_eq_false_2; [done| |done].
      intros [?|?]%elem_of_cons; done.
Qed.

Lemma newaxis_run st :
  wf st →
  ∃ st',
    newaxis st = (Return (), st') ∧ wf st' ∧
    dom (samples st') = dom (samples st) ∧
    files st' = files st ∧ stdout st' = stdout st ∧
    ∀ name, stored st' name = normalized <$> stored st name.
Proof.
  intros Hwf.
  destruct (newaxis_loop_run ((map_to_list (samples st)).*1) st Hwf)
    as (st' & Hloop & Hwf' & Hdom & Hf & Ho & Hstored).
  { apply NoDup_fst_map_to_list. }
  { intros k ([k' l] & -> & Hkl%elem_of_map_to_list)%list_elem_of_fmap. eauto. }
  exists st'. split_and!; try done. intros name. rewrite Hstored.
  case_bool_decide as Hname; [done|].
  unfold stored. destruct (samples st !! name) as [l|] eqn:Hl; [|done].
  exfalso. apply Hname. apply list_elem_of_fmap. exists (name, l).
  split; [done|]. by apply elem_of_map_to_list.
Qed.

(** X3. On a store whose names all refer to arrays, [newaxis] returns,
    prints nothing and keeps the names as they are; a stored
    one-dimensional trace of [n] draws becomes the [n] by 1 matrix of the
    same draws, every other trace is kept as it is, and afterwards no
    stored trace is one-dimensional. *)
Theorem newaxis_normalizes st :
  wf st →
  ∃ st',
    newaxis st = (Return (), st') ∧ wf st' ∧
    dom (samples st') = dom (samples st) ∧
    files st' = files st ∧ stdout st' = stdout st ∧
    (∀ name a n, stored st name = Some a → shape a = [n] →
       stored st' name = Some (Ndarray [n; 1] (data a))) ∧
    (∀ name a, stored st name = Some a → ndim a ≠ 1 →
       stored st' name = Some a) ∧
    (∀ name, stored st name = None → stored st' name = None) ∧
    (∀ name a', stored st' name = Some a' → ndim a' ≠ 1).
Proof.
  intros Hwf.
  destruct (newaxis_run st Hwf) as (st' & Hrun & Hwf' & Hdom & Hf & Ho & Hstored).
  exists st'. split_and!; try done.
  - intros name a n Ha Hshape. rewrite Hstored, Ha. simpl. f_equal.
    unfold normalized, add_axis. by rewrite Hshape.
  - intros name a Ha Hd. rewrite Hstored, Ha. simpl. f_equal.
    unfold normalized. by rewrite bool_decide_eq_false_2.
  - intros name Ha. by rewrite Hstored, Ha.
  - intros name a'. rewrite Hstored.
    destruct (stored st name) as [a|]; [|done]. intros [= <-].
    apply normalized_ndim.
Qed.

(** X4. [newaxis] is idempotent: a second call changes no name and no
    stored trace. *)
Theorem newaxis_idempotent st :
  wf st →
  (newaxis (newaxis st).2).1 = Return () ∧
  dom (samples (newaxis (newaxis st).2).2) = dom (samples (newaxis st).2) ∧
  ∀ name, stored (newaxis (newaxis st).2).2 name = stored (newaxis st).2 name.
Proof.
  intros Hwf.
  destruct (newaxis_run st Hwf) as (st1 & Hrun1 & Hwf1 & _ & _ & _ & Hstored1).
  rewrite Hrun1. cbn [snd].
  destruct (newaxis_run st1 Hwf1) as (st2 & Hrun2 & _ & Hdom2 & _ & _ & Hstored2).
  rewrite Hrun2. cbn [fst snd]. split_and!; [done|done|].
  intros name. rewrite Hstored2, Hstored1.
  destruct (stored st name) as [a|]; [|done]. simpl. by rewrite normalized_idemp.
Qed.

Lemma flat_map_take_one {A} (l : list A) s n :
  s + n ≤ length l →
  flat_map (λ k, take 1 (drop k l)) (seq s n) = take n (drop s l).
Proof.
  revert s. induction n as [|n IH]; intros s Hlen; [done|].
  cbn [seq flat_map]. rewrite IH by lia.
  destruct (lookup_lt_is_Some_2 l s) as [x Hx]; [lia|].
  by rewrite (drop_S _ _ _ Hx).
Qed.

Lemma slice_axis1_add_axis {A} (a : ndarray A) n :
  shape a = [n] → length (data a) = n →
  slice_axis1 (add_axis a) 0 = Return (Ndarray [n] (data a)).
Proof.
  intros Hshape Hlen. unfold slice_axis1, add_axis. rewrite Hshape. simpl.
  f_equal. f_equal.
  rewrite (flat_map_ext _ (λ k, take 1 (drop k (data a)))).
  - rewrite flat_map_take_one by (simpl; lia).
    rewrite drop_0. by rewrite take_ge by lia.
  - intros k. by replace ((k * 1 + 0) * 1) with k by lia.
Qed.

Section NewaxisThenEstimate.

Variable acor : ndarray float → outcome (float * float * float).

(** X5. [newaxis] makes the effective number of samples of a scalar
    parameter computable.  For a stored one-dimensional trace of [n] draws,
    on which [effective_samples] raises [IndexError], the call after
    [newaxis] hands the real part of the trace itself to the estimator and
    returns the one value [n / tau], or the exception of the estimator. *)
Theorem effective_samples_after_newaxis st name a n :
  wf st → stored st name = Some a → shape a = [n] → length (data a) = n →
  (effective_samples acor name st).1 = Raise IndexError ∧
  (effective_samples acor name (newaxis st).2).1 =
    match acor (ndarray_real a) with
    | Return (tau, _, _) =>
        Return (Some (Ndarray [1] [(float_of_nat n / tau)%float]))
    | Raise e => Raise e
    end.
Proof.
  intros Hwf Ha Hshape Hlen. split.
  { apply stored_Some in Ha as (l & Hname & Hl).
    by rewrite (effective_samples_1d acor st name l a n). }
  destruct (newaxis_run st Hwf) as (st' & Hrun & _ & _ & _ & _ & Hstored).
  rewrite Hrun. cbn [snd].
  specialize (Hstored name). rewrite Ha in Hstored. simpl in Hstored.
  assert (normalized a = add_axis a) as Hnorm.
  { unfold normalized. by rewrite bool_decide_eq_true_2 by by rewrite Hshape. }
  rewrite Hnorm in Hstored. apply stored_Some in Hstored as (l' & Hname' & Hl').
  rewrite (effective_samples_present acor st' name l' (add_axis a)) by done.
  unfold autocorr_timescale, shape_at, add_axis at 1 2. rewrite Hshape.
  cbn [shape app lookup list_lookup bind outcome_bind seq autocorr_loop].
  rewrite (slice_axis1_add_axis a n Hshape Hlen).
  cbn [bind outcome_bind].
  assert (Ndarray [n] (data a) = a) as -> by (destruct a; simpl in *; congruence).
  by destruct (acor (ndarray_real a)) as [[[tau mean] sigma]|].
Qed.

End NewaxisThenEstimate.

(** ** The posterior summaries *)

Lemma slice_axis1_column {A} (a : ndarray A) n d i :
  shape a = [n; d] → i < d → slice_axis1 a i = Return (column a i).
Proof.
  intros Hshape Hi. unfold column, slice_axis1. rewrite Hshape.
  by rewrite bool_decide_eq_true_2 by done.
Qed.

Lemma effective_samples_Return acor st name l a v st' :
  samples st !! name = Some l → heap st !! l = Some a →
  effective_samples acor name st = (Return v, st') →
  ∃ n d rest timescale,
    shape a = n :: d :: rest ∧ autocorr_timescale acor a = Return timescale ∧
    length (data timescale) = d ∧ v = Some (int_div_array n timescale).
Proof.
  intros Hname Hl Hrun.
  pose proof (effective_samples_present acor st name l a Hname Hl) as Hess.
  rewrite Hrun in Hess. cbn [fst] in Hess. unfold shape_at in Hess.
  destruct (shape a) as [|n sh] eqn:Hshape; [done|].
  cbn [lookup list_lookup bind outcome_bind] in Hess.
  destruct (autocorr_timescale acor a) as [timescale|] eqn:Htau; [|done].
  injection Hess as ->.
  apply autocorr_timescale_Return in Htau as Hts.
  destruct Hts as (d & Hd & _ & Htaus). rewrite Hshape in Hd.
  destruct sh as [|d' rest]; [done|]. injection Hd as ->.
  exists n, d, rest, timescale. split_and!; [done|done| |done].
  apply Forall2_length in Htaus. by rewrite length_seq in Htaus.
Qed.

Section Summaries.

Variable acor : ndarray float → outcome (float * float * float).

Section AnyStatistics.

Variable np_median np_std : ndarray scalar → outcome pyobj.
Variable np_percentile : ndarray scalar → float * float → outcome pyobj.

Lemma summaries_loop_Return_bound name traces ess s m st :
  (summaries_loop np_median np_std np_percentile name traces (Some ess)
     (seq s m) st).1 = Return () →
  m = 0 ∨ s + m ≤ length (data ess).
Proof.
  revert s st. induction m as [|m IH]; intros s st Hrun; [by left|]. right.
  cbn [seq summaries_loop] in Hrun.
  unfold bind, M_bind, print, lift, subscript, item in Hrun. simpl in Hrun.
  destruct (data ess !! s) as [x|] eqn:Hs; [|done]. simpl in Hrun.
  apply lookup_lt_Some in Hs.
  destruct (slice_axis1 traces s) as [col|]; [|done]. simpl in Hrun.
  destruct (print_statistics _ _ _ _ _) as [[[]|] st1]; [|done].
  apply IH in Hrun as [->|?]; lia.
Qed.

(** X6. [posterior_summaries] ends normally only on a stored trace that
    has a second axis of length [d] and no more than [d] elements for each
    draw: with fewer than two dimensions the call of [effective_samples]
    raises, and with more than two the loop runs over all the elements of
    the reshaped trace while [effective_nsamples] has [d] values only. *)
Theorem posterior_summaries_returns_only_for_matrices st name l a :
  samples st !! name = Some l → heap st !! l = Some a →
  (posterior_summaries acor np_median np_std np_percentile name st).1 = Return () →
  ∃ n d rest, shape a = n :: d :: rest ∧ d * foldr Nat.mul 1 rest ≤ d.
Proof.
  intros Hname Hl Hrun. unfold posterior_summaries, bind at 1 2 3, M_bind in Hrun.
  rewrite (getitem_Some _ _ _ Hname), (deref_Some _ _ _ Hl) in Hrun.
  destruct (effective_samples acor name st) as [[v|] st1] eqn:Hess; [|done].
  destruct (effective_samples_Return acor st name l a v st1 Hname Hl Hess)
    as (n & d & rest & timescale & Hshape & _ & Hlen & ->).
  exists n, d, rest. split; [done|].
  destruct rest as [|r rest]; [simpl; lia|].
  unfold ndim in Hrun. rewrite Hshape in Hrun. cbn [length] in Hrun.
  rewrite bool_decide_eq_false_2 in Hrun by lia.
  rewrite bool_decide_eq_true_2 in Hrun by lia.
  unfold reshape_2d, bind, M_bind, lift, shape_at in Hrun.
  rewrite Hshape in Hrun. cbn [shape lookup list_lookup] in Hrun.
  apply summaries_loop_Return_bound in Hrun. cbn [data int_div_array] in Hrun.
  rewrite length_fmap, Hlen in Hrun. simpl in Hrun. simpl. lia.
Qed.

End AnyStatistics.

Section TotalStatistics.

(** Statistics that do not raise. *)
Variable median std : ndarray scalar → pyobj.
Variable percentile : ndarray scalar → float * float → pyobj.

Lemma summaries_loop_run name a n d npts ess indices taus st :
  shape a = [n; d] → (∀ i, i ∈ indices → i < d) →
  Forall2 (λ i tau, data ess !! i = Some (float_of_nat npts / tau)%float)
          indices taus →
  summaries_loop (λ x, Return (median x)) (λ x, Return (std x))
      (λ x q, Return (percentile x q)) name a (Some ess) indices st =
    (Return (),
     State (samples st) (heap st) (files st)
       (stdout st ++
        concat (zip_with (λ i tau, summary_block median std percentile name npts
                                     (column a i) i tau) indices taus))).
Proof.
  intros Hshape Hbound Hess. revert st.
  induction Hess as [|i tau indices taus Hi _ IH]; intros st.
  { simpl. rewrite app_nil_r. by destruct st. }
  cbn [summaries_loop zip_with concat].
  unfold bind, M_bind, print, lift, subscript, item, print_statistics. simpl.
  rewrite Hi. simpl.
  rewrite (slice_axis1_column a n d i) by (done || apply Hbound; by left). simpl.
  rewrite IH by (intros j Hj; apply Hbound; by right). simpl.
  by rewrite <- !app_assoc.
Qed.

(** X7. For a stored [n] by [d] trace on whose columns the estimator
    answers, and statistics that do not raise, [posterior_summaries]
    returns, leaves the store as it is and prints, after the line of
    [effective_samples], one block of eight lines for each column, in the
    order of the columns: the title with the index of the column, the rule,
    [n] over the tau of this column, and the median, the standard
    deviation and the percentiles (16, 84), (2.5, 97.5), (0.5, 99.5) of the
    draws of this column. *)
Theorem posterior_summaries_of_matrix st name l a n d timescale :
  samples st !! name = Some l → heap st !! l = Some a → shape a = [n; d] →
  autocorr_timescale acor a = Return timescale →
  posterior_summaries acor (λ x, Return (median x)) (λ x, Return (std x))
      (λ x q, Return (percentile x q)) name st =
    (Return (),
     State (samples st) (heap st) (files st)
       (stdout st ++
        [PyStr "Calculating effective number of samples"] ::
        concat (zip_with (λ i tau, summary_block median std percentile name n
                                     (column a i) i tau)
                         (seq 0 d) (data timescale)))) ∧
  length (data timescale) = d.
Proof.
  intros Hname Hl Hshape Htau.
  apply autocorr_timescale_Return in Htau as Hts.
  destruct Hts as (d' & Hd & _ & Htaus). rewrite Hshape in Hd. injection Hd as <-.
  apply Forall2_length in Htaus as Hlen. rewrite length_seq in Hlen.
  split; [|done].
  assert (Hess : effective_samples acor name st =
    (Return (Some (int_div_array n timescale)),
     printed st [PyStr "Calculating effective number of samples"])).
  { unfold effective_samples.
    rewrite (bind_Return _ _ _ _ _ (contains_Some _ _ _ Hname)). simpl.
    unfold bind, M_bind, print, getitem, deref, lift, ret. simpl.
    rewrite Hname. simpl. rewrite Hl, Htau.
    unfold shape_at. by rewrite Hshape. }
  unfold posterior_summaries, bind at 1 2 3, M_bind.
  rewrite (getitem_Some _ _ _ Hname), (deref_Some _ _ _ Hl), Hess.
  unfold ndim. rewrite Hshape. cbn [length].
  rewrite bool_decide_eq_false_2 by lia. rewrite bool_decide_eq_false_2 by lia.
  unfold bind, M_bind, ret, lift, shape_at. rewrite Hshape.
  cbn [lookup list_lookup].
  rewrite (summaries_loop_run name a n d n (int_div_array n timescale)
             (seq 0 d) (data timescale)); [| done | | ].
  - simpl. by rewrite <- app_assoc.
  - intros i Hi%elem_of_seq. lia.
  - apply Forall2_same_length_lookup_2; [by rewrite length_seq|].
    intros i j tau Hj Hi. apply lookup_seq in Hj as [-> _].
    simpl. by rewrite list_lookup_fmap, Hi.
Qed.

End TotalStatistics.

End Summaries.

(** ** Several sources *)

Section Sources.

Variable genfromtxt : string → nat → outcome (ndarray scalar).

Lemma ingested_stored_eq st text array name :
  wf st →
  stored (ingested st text array) name =
    match stored st name with
    | Some tr => Some tr
    | None => if bool_decide (readline text = name) then Some array else None
    end.
Proof.
  intros Hwf. destruct (stored st name) as [tr|] eqn:Hstored.
  { by apply ingested_stored. }
  assert (Hname : samples st !! name = None).
  { destruct (samples st !! name) as [l|] eqn:Hl; [|done].
    destruct (Hwf _ _ Hl) as [a Ha].
    assert (stored st name = Some a) by (apply stored_Some; eauto). congruence. }
  case_bool_decide as Hheader.
  - subst name. by apply ingested_new.
  - unfold stored, ingested. simpl.
    destruct (samples st !! readline text); [by rewrite Hname|].
    by rewrite lookup_insert_ne, Hname.
Qed.

(** X8. When every source of the list can be opened and parsed,
    [generate_from_file] returns and the store holds, under each name,
    the trace it held before, or else the array of the first source of the
    list whose header is that name, and nothing under any other name. *)
Theorem generate_from_file_first_source_wins
    (sources : list (string * (string * ndarray scalar))) st :
  wf st →
  Forall (λ s, files st !! s.1 = Some s.2.1 ∧ genfromtxt s.2.1 1 = Return s.2.2)
         sources →
  (generate_from_file genfromtxt (sources.*1) st).1 = Return () ∧
  ∀ name,
    stored (generate_from_file genfromtxt (sources.*1) st).2 name =
      match stored st name with
      | Some tr => Some tr
      | None => first_source name (sources.*2)
      end.
Proof.
  intros Hwf Hsources. revert st Hwf Hsources.
  induction sources as [|[fname [text array]] sources IH]; intros st Hwf Hsources.
  { split; [done|]. intros name. simpl. by destruct (stored st name). }
  apply Forall_cons in Hsources as [[Hfile Hread] Hsources]. simpl in Hfile, Hread.
  cbn [fmap list_fmap fst snd]. rewrite generate_from_file_cons, Hfile, Hread.
  destruct (IH (ingested st text array)) as [Hrun Hstored];
    [by apply ingested_wf|done|].
  split; [done|]. intros name. rewrite Hstored, ingested_stored_eq by done.
  cbn [first_source]. destruct (stored st name); [done|]. by case_bool_decide.
Qed.

(** X9. However a call of [generate_from_file] ends, it has printed
    nothing and left the files as they were, every name of the store is
    still a name, every stored trace is still stored unchanged, and the
    names still all refer to arrays. *)
Theorem generate_from_file_frame filename st :
  stdout (generate_from_file genfromtxt filename st).2 = stdout st ∧
  files (generate_from_file genfromtxt filename st).2 = files st ∧
  dom (samples st) ⊆ dom (samples (generate_from_file genfromtxt filename st).2) ∧
  (∀ name tr, stored st name = Some tr →
     stored (generate_from_file genfromtxt filename st).2 name = Some tr) ∧
  (wf st → wf (generate_from_file genfromtxt filename st).2).
Proof.
  split_and!.
  - revert st. induction filename as [|fname filename IH]; intros st; [done|].
    rewrite generate_from_file_cons.
    destruct (files st !! fname) as [text|]; [|done].
    destruct (genfromtxt text 1) as [array|]; [|done]. by rewrite IH.
  - apply generate_from_file_files.
  - revert st. induction filename as [|fname filename IH]; intros st; [done|].
    rewrite generate_from_file_cons.
    destruct (files st !! fname) as [text|]; [|done].
    destruct (genfromtxt text 1) as [array|]; [|done].
    etrans; [|apply IH]. unfold ingested. simpl.
    destruct (samples st !! readline text); [done|].
    rewrite dom_insert_L. apply union_subseteq_r.
  - intros name tr. apply generate_from_file_preserves.
  - apply generate_from_file_wf.
Qed.

(** X10. What is ingested can be read back: after a source with a new
    header has been ingested, [get_samples] with that header returns a new
    array object that holds the array parsed from the source. *)
Theorem get_samples_after_ingestion st fname text array :
  files st !! fname = Some text → genfromtxt text 1 = Return array →
  samples st !! readline text = None →
  ∃ l st2,
    bind (generate_from_file genfromtxt [fname])
         (λ _, get_samples (readline text)) st = (Return l, st2) ∧
    heap st2 !! l = Some array ∧ heap st !! l = None ∧
    stored st2 (readline text) = Some array.
Proof.
  intros Hfile Hread Hnew. unfold bind at 1, M_bind.
  rewrite (generate_from_file_one genfromtxt st fname text array) by done.
  pose proof (ingested_new st text array Hnew) as Hstored.
  apply stored_Some in Hstored as (l0 & Hname & Hl0).
  destruct (get_samples_fresh _ _ _ _ Hname Hl0) as (l & st2 & Hget & Hl & Hs & Hh).
  exists l, st2. split_and!; [done| | |].
  - by rewrite Hh, lookup_insert_eq.
  - unfold ingested in Hl. simpl in Hl.
    apply lookup_insert_None in Hl as [Hl _]. done.
  - apply stored_Some. exists l0. rewrite Hs, Hh. split; [done|].
    rewrite lookup_insert_ne; [done|]. congruence.
Qed.

End Sources.

(** ** The head of the joint plots *)

Lemma slice_axis1_in_bounds {A} (a : ndarray A) d i :
  shape a !! 1 = Some d → i < d →
  ∃ col n, slice_axis1 a i = Return col ∧ shape a !! 0 = Some n ∧
           shape col !! 0 = Some n.
Proof.
  intros Hd Hi. unfold slice_axis1.
  destruct (shape a) as [|n [|d' rest]]; [done|done|]. injection Hd as ->.
  rewrite bool_decide_eq_true_2 by done. eauto.
Qed.

Lemma prints_only_plot_2d_head message name1 name2 pindex1 pindex2 :
  prints_only (plot_2d_head message name1 name2 pindex1 pindex2).
Proof. unfold plot_2d_head. prints_only_steps. Qed.

Lemma plot_2d_head_run message name1 name2 pindex1 pindex2 st :
  plot_2d_head message name1 name2 pindex1 pindex2 st =
    match samples st !! name1, samples st !! name2 with
    | Some l1, Some l2 =>
        match heap st !! l1 with
        | None => (Raise SystemError, st)
        | Some a1 =>
            match shape a1 !! 1 with
            | None => (Raise IndexError, st)
            | Some d1 =>
                if bool_decide (d1 ≤ pindex1) then
                  (Return false,
                   printed st [PyStr "WARNING: not enough data in"; PyStr name1])
                else
                  match heap st !! l2 with
                  | None => (Raise SystemError, st)
                  | Some a2 =>
                      match shape a2 !! 1 with
                      | None => (Raise IndexError, st)
                      | Some d2 =>
                          if bool_decide (d2 ≤ pindex2) then
                            (Return false,
                             printed st [PyStr "WARNING: not enough data in";
                                         PyStr name2])
                          else (Return true, printed st [PyStr message])
                      end
                  end
            end
        end
    | _, _ =>
        (Return false,
         printed st [PyStr "WARNING: sampler does not have"; PyStr name1;
                     PyStr name2])
    end.
Proof.
  unfold plot_2d_head, bind, M_bind, contains, getitem, deref, lift, shape_at,
    print, ret, printed.
  destruct (samples st !! name1) as [l1|] eqn:Hn1;
    destruct (samples st !! name2) as [l2|] eqn:Hn2; cbn; try done.
  rewrite Hn1.
  destruct (heap st !! l1) as [a1|]; [|done].
  destruct (shape a1 !! 1) as [d1|]; [|done].
  case_bool_decide; [done|]. rewrite Hn2.
  destruct (heap st !! l2) as [a2|]; [|done].
  destruct (shape a2 !! 1) as [d2|]; [|done].
  by case_bool_decide.
Qed.

(** X12. The head of [plot_2dpdf] and [plot_2dkde] only prints.  When it
    lets the method go on, both names are stored with a second axis that
    is longer than the index asked for, only the message of the method
    has been printed, and the columns that [plot_2dkde] then takes are
    within bounds: [trace1], [trace2] and [npts] are obtained, [npts]
    being the length of the first axis of the first trace.  When it makes
    the method return, a name is missing or an index is not below the
    length of the second axis.  On a stored one-dimensional trace the
    head itself raises [IndexError]. *)
Theorem plot_2d_head_guards message name1 name2 pindex1 pindex2 st :
  let head := plot_2d_head message name1 name2 pindex1 pindex2 st in
  only_printed st head.2 ∧
  (head.1 = Return true →
     head.2 = printed st [PyStr message] ∧
     ∃ a1 a2 d1 d2 npts trace1 trace2,
       stored st name1 = Some a1 ∧ stored st name2 = Some a2 ∧
       shape a1 !! 1 = Some d1 ∧ pindex1 < d1 ∧
       shape a2 !! 1 = Some d2 ∧ pindex2 < d2 ∧
       shape a1 !! 0 = Some npts ∧
       plot_2dkde_traces name1 name2 pindex1 pindex2 head.2 =
         (Return (trace1, trace2, npts), head.2)) ∧
  (head.1 = Return false →
     samples st !! name1 = None ∨ samples st !! name2 = None ∨
     (∃ a1 d1, stored st name1 = Some a1 ∧ shape a1 !! 1 = Some d1 ∧ d1 ≤ pindex1) ∨
     (∃ a2 d2, stored st name2 = Some a2 ∧ shape a2 !! 1 = Some d2 ∧ d2 ≤ pindex2)) ∧
  (∀ a1 n, stored st name1 = Some a1 → shape a1 = [n] →
     is_Some (samples st !! name2) → head.1 = Raise IndexError).
Proof.
  intros head. split; [apply prints_only_plot_2d_head|].
  subst head. rewrite plot_2d_head_run. unfold stored.
  destruct (samples st !! name1) as [l1|] eqn:Hn1; cbn [mbind option_bind].
  2: { split_and!; [done|by left|]. by intros a1 n. }
  destruct (samples st !! name2) as [l2|] eqn:Hn2; cbn [mbind option_bind].
  2: { split_and!; [done|by right; left|]. by intros a1 n _ _ [? ?]. }
  destruct (heap st !! l1) as [a1|] eqn:Hl1; [|by split_and!].
  destruct (shape a1 !! 1) as [d1|] eqn:Hd1.
  2: { split_and!; [done|done|]. intros a1' n [= <-] Hshape. done. }
  assert (H1d : ∀ a1' n, Some a1 = Some a1' → shape a1' = [n] → False).
  { intros a1' n [= <-] Hshape. by rewrite Hshape in Hd1. }
  assert (Hnot1d : ∀ (P : Prop) a1' n,
            Some a1 = Some a1' → shape a1' = [n] → is_Some (Some l2) → P).
  { intros P a1' n Heq Hshape _. by destruct (H1d a1' n). }
  case_bool_decide as Hp1.
  { split_and!; [done| |apply Hnot1d].
    intros _. right; right; left. by exists a1, d1. }
  destruct (heap st !! l2) as [a2|] eqn:Hl2; [|split_and!; [done|done|apply Hnot1d]].
  destruct (shape a2 !! 1) as [d2|] eqn:Hd2; [|split_and!; [done|done|apply Hnot1d]].
  case_bool_decide as Hp2.
  { split_and!; [done| |apply Hnot1d].
    intros _. right; right; right. by exists a2, d2. }
  split_and!; [|done|apply Hnot1d].
  intros _. split; [done|].
  destruct (slice_axis1_in_bounds a1 d1 pindex1 Hd1) as (c1 & n1 & Hc1 & Hn & Hcn);
    [lia|].
  destruct (slice_axis1_in_bounds a2 d2 pindex2 Hd2) as (c2 & n2 & Hc2 & _ & _);
    [lia|].
  exists a1, a2, d1, d2, n1, (ndarray_real c1), (ndarray_real c2).
  split_and!; [done|done|done|lia|done|lia|done|].
  unfold plot_2dkde_traces, bind, M_bind, getitem, deref, lift, ret, shape_at.
  simpl. rewrite Hn1. simpl. rewrite Hl1, Hc1. simpl. rewrite Hn2. simpl.
  rewrite Hl2, Hc2. simpl. by rewrite Hcn.
Qed.

(** ** The time scale that [plot_parameter] shows *)

Lemma flat_map_length_one {A} (f : nat → list A) s m :
  (∀ k, s ≤ k < s + m → length (f k) = 1) →
  length (flat_map f (seq s m)) = m.
Proof.
  revert s. induction m as [|m IH]; intros s Hone; [done|].
  cbn [seq flat_map]. rewrite length_app, Hone by lia.
  rewrite IH; [done|]. intros k Hk. apply Hone. lia.
Qed.

Lemma column_matrix {A} (a : ndarray A) n d i :
  shape a = [n; d] → length (data a) = n * d → i < d →
  shape (column a i) = [n] ∧ length (data (column a i)) = n.
Proof.
  intros Hshape Hlen Hi. unfold column, slice_axis1. rewrite Hshape.
  rewrite bool_decide_eq_true_2 by done. split; [done|]. simpl.
  apply flat_map_length_one. intros k Hk.
  rewrite length_take, length_drop, Hlen. nia.
Qed.

Lemma timescale_of_vector acor (v : ndarray scalar) n :
  shape v = [n] → length (data v) = n →
  plot_parameter_timescale acor v =
    match acor (ndarray_real v) with
    | Return (tau, _, _) => Return (Ndarray [1] [tau])
    | Raise e => Raise e
    end.
Proof.
  intros Hshape Hlen. unfold plot_parameter_timescale, newaxis_1. rewrite Hshape.
  cbn [bind outcome_bind]. unfold autocorr_timescale, shape_at.
  cbn [shape lookup list_lookup bind outcome_bind seq autocorr_loop].
  pose proof (slice_axis1_add_axis v n Hshape Hlen) as Hcol.
  unfold add_axis in Hcol. rewrite Hshape in Hcol. cbn [app] in Hcol.
  rewrite Hcol. cbn [bind outcome_bind].
  assert (Ndarray [n] (data v) = v) as -> by (destruct v; simpl in *; congruence).
  by destruct (acor (ndarray_real v)) as [[[tau mean] sigma]|].
Qed.

Section PlotParameterClaims.

Variable acor : ndarray float → outcome (float * float * float).

(** X13. The time scale that [plot_parameter] shows for element [pindex]
    of a stored [n] by [d] trace is the one that [autocorr_timescale], and
    so [effective_samples], uses for this element: the estimator is given
    the real part of the same column.  A stored one-dimensional trace is
    plotted as it is, and its time scale is that of the trace itself, with
    no call of [newaxis] needed.  The store is left as it is. *)
Theorem plot_parameter_time_scale st name l a pindex :
  samples st !! name = Some l → heap st !! l = Some a →
  (∀ n d, shape a = [n; d] → length (data a) = n * d → pindex < d →
     plot_parameter_traces name pindex st =
       (Return (Some (column a pindex)),
        printed st [PyStr "Plotting parameter summary"]) ∧
     plot_parameter_timescale acor (column a pindex) =
       match column_tau acor a pindex with
       | Return tau => Return (Ndarray [1] [tau])
       | Raise e => Raise e
       end ∧
     ∀ timescale, autocorr_timescale acor a = Return timescale →
       ∃ tau, data timescale !! pindex = Some tau ∧
         plot_parameter_timescale acor (column a pindex) =
           Return (Ndarray [1] [tau])) ∧
  (∀ n, shape a = [n] → length (data a) = n →
     plot_parameter_traces name pindex st =
       (Return (Some a), printed st [PyStr "Plotting parameter summary"]) ∧
     plot_parameter_timescale acor a =
       match acor (ndarray_real a) with
       | Return (tau, _, _) => Return (Ndarray [1] [tau])
       | Raise e => Raise e
       end).
Proof.
  intros Hname Hl.
  assert (Hhead : ∀ k : ndarray scalar → M (option (ndarray scalar)),
    bind (contains name) (λ present,
      if negb present then
        bind (print [PyStr "WARNING: sampler does not have"; PyStr name])
             (λ _, ret None)
      else
        bind (print [PyStr "Plotting parameter summary"]) (λ _,
          bind (getitem name) (λ l, bind (deref l) k))) st =
    k a (printed st [PyStr "Plotting parameter summary"])).
  { intros k. rewrite (bind_Return _ _ _ _ _ (contains_Some _ _ _ Hname)). simpl.
    unfold bind, M_bind, print, getitem, deref. simpl. rewrite Hname. simpl.
    by rewrite Hl. }
  split.
  - intros n d Hshape Hlen Hp.
    destruct (column_matrix a n d pindex Hshape Hlen Hp) as [Hcs Hcl].
    assert (Htime : plot_parameter_timescale acor (column a pindex) =
      match column_tau acor a pindex with
      | Return tau => Return (Ndarray [1] [tau])
      | Raise e => Raise e
      end).
    { rewrite (timescale_of_vector acor _ n Hcs Hcl). unfold column_tau.
      rewrite (slice_axis1_column a n d pindex Hshape Hp). cbn [bind outcome_bind].
      by destruct (acor (ndarray_real (column a pindex))) as [[[tau mean] sigma]|]. }
    split_and!; [|done|].
    + unfold plot_parameter_traces. rewrite Hhead. unfold ndim. rewrite Hshape.
      cbn [length]. rewrite bool_decide_eq_true_2 by lia.
      rewrite bool_decide_eq_false_2 by lia.
      unfold bind, M_bind, ret, lift.
      by rewrite (slice_axis1_column a n d pindex Hshape Hp).
    + intros timescale (d' & Hd & _ & Htaus)%autocorr_timescale_Return.
      rewrite Hshape in Hd. injection Hd as <-.
      destruct (Forall2_lookup_l _ _ _ pindex pindex Htaus) as (tau & Htau & Hof).
      { apply lookup_seq. lia. }
      exists tau. split; [done|]. rewrite Htime.
      destruct Hof as (col & mean & sigma & Hcol & Hacor).
      unfold column_tau. by rewrite Hcol; cbn [bind outcome_bind]; rewrite Hacor.
  - intros n Hshape Hlen. split; [|by apply (timescale_of_vector acor a n)].
    unfold plot_parameter_traces. rewrite Hhead. unfold ndim. rewrite Hshape.
    cbn [length]. by rewrite bool_decide_eq_false_2 by lia.
Qed.

End PlotParameterClaims.

(** ** The model at work *)

Lemma wf_empty fs : wf (empty_state fs).
Proof. intros name l H. simpl in H. by rewrite lookup_empty in H. Qed.

Lemma wf_example_store : wf example_store.
Proof. apply generate_from_file_wf, wf_empty. Qed.

(** *** Effective sample size *)

Lemma effective_samples_theta :
  (effective_samples acor_two theta_key example_store).1 =
    Return (Some (Ndarray [2] [1.5; 1.5]%float)).
Proof.
  rewrite (proj1 (effective_samples_is_npts_over_tau acor_two example_store
                    theta_key 1%positive theta_trace 3 2 eq_refl eq_refl eq_refl)).
  vm_compute. reflexivity.
Defined.

(** *** Names that are not in the store *)

(** The trace of "mu.dat" is stored under the header with its newline, so
    the name "mu" is not in the store. *)
Lemma absent_name_mu :
  samples example_store !! "mu" = None ∧
  get_samples "mu" example_store = (Raise (KeyError "mu"), example_store) ∧
  posterior_summaries acor_two no_statistic no_statistic no_percentile "mu"
    example_store = (Raise (KeyError "mu"), example_store).
Proof.
  split; [vm_compute; reflexivity|].
  destruct (absent_name acor_two no_statistic no_statistic no_percentile
              example_store "mu" eq_refl) as (Hget & Hsummary & _).
  split; [exact Hget|exact Hsummary].
Defined.

(** [effective_samples] on a name that is not in the store raises nothing
    and returns [None]. *)
Lemma effective_samples_absent_returns_None :
  samples example_store !! "mu" = None ∧
  effective_samples acor_two "mu" example_store =
    (Return None,
     printed example_store [PyStr "WARNING: sampler does not have"; PyStr "mu"]).
Proof. split; vm_compute; reflexivity. Qed.

(** *** Ingestion *)

Lemma first_write_wins_theta :
  stored (generate_from_file read_table ["theta.dat"] example_store).2 theta_key =
    Some theta_trace ∧
  samples (generate_from_file read_table ["theta.dat"] example_store).2 =
    samples example_store.
Proof.
  destruct (generate_from_file_first_write_wins read_table example_store
              "theta.dat" table_file theta_trace wf_example_store eq_refl eq_refl)
    as (_ & Hpresent & _ & Hkept & _).
  split.
  - apply Hkept. vm_compute. reflexivity.
  - exact (proj1 (Hpresent 1%positive eq_refl)).
Defined.

(** A source whose rows differ in length is refused by the reader: the
    source before it stays ingested and the source after it is not read. *)
Lemma ragged_source_fails :
  generate_from_file read_table ["theta.dat"; "sigma.dat"; "mu.dat"]
    (empty_state example_files) =
    (Raise ValueError,
     (generate_from_file read_table ["theta.dat"] (empty_state example_files)).2) ∧
  stored (generate_from_file read_table ["theta.dat"] (empty_state example_files)).2
    theta_key = Some theta_trace.
Proof.
  split.
  - apply (generate_from_file_failure read_table ["theta.dat"] "sigma.dat" ["mu.dat"]
             (empty_state example_files) ValueError eq_refl).
    right. exists ragged_file. split; vm_compute; reflexivity.
  - vm_compute. reflexivity.
Defined.

(** A source with a blank row is ingested: the reader skips the row, as
    [np.genfromtxt] does, and nothing in [generate_from_file] looks at the
    rows. *)
Lemma blank_row_is_ingested :
  files (empty_state example_files) !! "mu.dat" = Some "mu
1

2
" ∧
  (generate_from_file read_table ["mu.dat"] (empty_state example_files)).1 = Return () ∧
  stored (generate_from_file read_table ["mu.dat"] (empty_state example_files)).2
    mu_key = Some mu_trace.
Proof. split_and!; vm_compute; reflexivity. Qed.

Lemma header_keeps_newline_mu :
  stored (generate_from_file read_table ["mu.dat"] (empty_state example_files)).2
    mu_key = Some mu_trace ∧
  get_samples "mu"
    (generate_from_file read_table ["mu.dat"] (empty_state example_files)).2 =
    (Raise (KeyError "mu"),
     (generate_from_file read_table ["mu.dat"] (empty_state example_files)).2).
Proof.
  destruct (generate_from_file_keeps_newline read_table (empty_state example_files)
              "mu.dat" "mu" "1

2
" mu_trace eq_refl eq_refl eq_refl) as (_ & _ & Hstored & _ & Hget & _).
  split; [exact (Hstored eq_refl)|exact (Hget eq_refl)].
Defined.

(** The bare name can be a key already: the header of [header_only_file]
    has no newline to keep.  With that file read first, the column of
    [mu] is ingested under the key with the newline as before, and
    [get_samples] with the bare name finds a trace, the empty one of the
    first file. *)
Lemma bare_name_is_found :
  readline header_only_file = "mu" ∧
  (generate_from_file read_table ["bare.dat"; "mu.dat"] (empty_state bare_files)).1 =
    Return () ∧
  stored (generate_from_file read_table ["bare.dat"; "mu.dat"]
            (empty_state bare_files)).2 mu_key = Some mu_trace ∧
  ∃ l st1,
    get_samples "mu"
      (generate_from_file read_table ["bare.dat"; "mu.dat"]
         (empty_state bare_files)).2 = (Return l, st1) ∧
    heap st1 !! l = Some (Ndarray [0] []).
Proof.
  split_and!; [done|by vm_compute|by vm_compute|].
  eexists _, _. split; [vm_compute; reflexivity|]. by vm_compute.
Qed.

(** *** Copies *)

Lemma get_samples_copy_theta :
  ∃ l1 st1,
    get_samples theta_key example_store = (Return l1, st1) ∧
    l1 ≠ 1%positive ∧ heap st1 !! l1 = Some theta_trace ∧
    stored st1 theta_key = Some theta_trace.
Proof.
  destruct (get_samples_independent_copy example_store theta_key 1%positive
              theta_trace eq_refl eq_refl)
    as (l1 & st1 & Hget & _ & Hne & Hcopy & _ & _ & Hstored & _).
  exists l1, st1. split_and!; [exact Hget|exact Hne|exact Hcopy|exact Hstored].
Defined.

(** *** Traces that are not matrices *)

Lemma one_dimensional_trace_mu :
  autocorr_timescale acor_two mu_trace = Raise IndexError ∧
  (effective_samples acor_two mu_key example_store).1 = Raise IndexError ∧
  (posterior_summaries acor_two no_statistic no_statistic no_percentile mu_key
     example_store).1 = Raise IndexError.
Proof.
  destruct (one_dimensional_trace acor_two no_statistic no_statistic no_percentile
              example_store mu_key 2%positive mu_trace 2 eq_refl eq_refl eq_refl)
    as (Htau & Hess & Hsummary).
  split_and!; [exact Htau|by rewrite Hess|by rewrite Hsummary].
Defined.

(** Once [newaxis] has been called, the summary of "mu" is printed, by the
    loop over the elements. *)
Example summaries_after_newaxis :
  stored (newaxis example_store).2 mu_key = Some (Ndarray [2; 1] [Real 1; Real 2]) ∧
  (posterior_summaries acor_two no_statistic no_statistic no_percentile mu_key
     (newaxis example_store).2).1 = Return () ∧
  stdout (posterior_summaries acor_two no_statistic no_statistic no_percentile mu_key
            (newaxis example_store).2).2 !! 1 =
    Some [PyStr "Posterior summary for parameter"; PyStr mu_key;
          PyStr " element"; PyInt 0].
Proof. split_and!; vm_compute; reflexivity. Qed.

(** *** Complex-valued traces *)

(** A trace with non-real values is accepted.  The real parts of the
    sixty draws of [alternating_trace] are 1, -1, 1, -1, ...: whatever an
    estimator answers on that sequence is the answer on the trace, and an
    estimator with the window of [acor] answers tau = 1 on it. *)
Lemma alternating_trace_is_accepted :
  existsb is_complex (data alternating_trace) = true ∧
  (∀ acor tau mean sigma,
     acor (Ndarray [60] (concat (replicate 30 [1; -1]%float))) =
       Return (tau, mean, sigma) →
     autocorr_timescale acor alternating_trace = Return (Ndarray [1] [tau])) ∧
  acor_window (Ndarray [60] (concat (replicate 30 [1; -1]%float))) =
    Return (1, 0, PrimFloat.sqrt (1 / 60))%float ∧
  autocorr_timescale acor_window alternating_trace = Return (Ndarray [1] [1%float]).
Proof.
  split_and!; [reflexivity| |by vm_compute|by vm_compute].
  intros acor tau mean sigma Hacor.
  unfold autocorr_timescale, alternating_trace, shape_at. cbn.
  rewrite bool_decide_eq_true_2 by lia.
  unfold bind, outcome_bind, ndarray_real. cbn in Hacor |- *.
  by rewrite Hacor.
Qed.

(** *** Stragglers *)

Lemma stragglers_example :
  ∃ sx sy,
    stragglers box_contains example_collections example_xs example_ys =
      Return (sx, sy) ∧
    zip sx sy = [(1, 9)%float].
Proof.
  destruct (stragglers_outside_outer_level box box_contains example_collections
              [Box 0 2 0 2; Box 4 6 4 6]%float example_xs example_ys
              eq_refl eq_refl (le_n 3))
    as (sx & sy & Hrun & _ & Hzip & _).
  exists sx, sy. split; [exact Hrun|]. rewrite Hzip. vm_compute. reflexivity.
Defined.

(** *** Contour levels *)



(** *** Normalizing the dimensions *)

Lemma newaxis_example :
  stored (newaxis example_store).2 mu_key = Some (Ndarray [2; 1] [Real 1; Real 2]) ∧
  stored (newaxis example_store).2 theta_key = Some theta_trace.
Proof.
  destruct (newaxis_normalizes example_store wf_example_store)
    as (st' & Hrun & _ & _ & _ & _ & Hvector & Hmatrix & _).
  rewrite Hrun. cbn [snd]. split.
  - apply (Hvector mu_key mu_trace 2); vm_compute; reflexivity.
  - apply (Hmatrix theta_key theta_trace); [vm_compute; reflexivity|].
    vm_compute. lia.
Defined.

Lemma newaxis_twice_example :
  stored (newaxis (newaxis example_store).2).2 mu_key =
  stored (newaxis example_store).2 mu_key.
Proof.
  exact (proj2 (proj2 (newaxis_idempotent example_store wf_example_store)) mu_key).
Defined.

Lemma effective_samples_after_newaxis_example :
  (effective_samples acor_two mu_key example_store).1 = Raise IndexError ∧
  (effective_samples acor_two mu_key (newaxis example_store).2).1 =
    Return (Some (Ndarray [1] [1%float])).
Proof.
  destruct (effective_samples_after_newaxis acor_two example_store mu_key mu_trace 2
              wf_example_store eq_refl eq_refl eq_refl) as [Hbefore Hafter].
  split; [exact Hbefore|]. rewrite Hafter. vm_compute. reflexivity.
Defined.

(** *** The posterior summaries *)

Lemma summaries_theta_is_a_matrix :
  ∃ n d rest, shape theta_trace = n :: d :: rest ∧ d * foldr Nat.mul 1 rest ≤ d.
Proof.
  apply (posterior_summaries_returns_only_for_matrices acor_two no_statistic
           no_statistic no_percentile example_store theta_key 1%positive theta_trace
           eq_refl eq_refl).
  vm_compute. reflexivity.
Defined.

Lemma summaries_theta_example :
  (posterior_summaries acor_two no_statistic no_statistic no_percentile theta_key
     example_store).1 = Return () ∧
  length (stdout (posterior_summaries acor_two no_statistic no_statistic no_percentile
                    theta_key example_store).2) = 17.
Proof.
  pose proof (proj1 (posterior_summaries_of_matrix acor_two (λ _, PyNone) (λ _, PyNone)
                       (λ _ _, PyNone) example_store theta_key 1%positive theta_trace
                       3 2 (Ndarray [2] [2; 2]%float)
                       eq_refl eq_refl eq_refl eq_refl)) as Hrun.
  cbv beta in Hrun. unfold no_statistic, no_percentile.
  rewrite Hrun. split; [reflexivity|]. vm_compute. reflexivity.
Defined.

(** *** Several sources *)

Lemma first_source_wins_example :
  stored (generate_from_file read_table ["mu.dat"; "theta.dat"; "mu.dat"]
            (empty_state example_files)).2 mu_key = Some mu_trace ∧
  stored (generate_from_file read_table ["mu.dat"; "theta.dat"; "mu.dat"]
            (empty_state example_files)).2 "mu" = None.
Proof.
  destruct (generate_from_file_first_source_wins read_table
              [("mu.dat", (blank_row_file, mu_trace));
               ("theta.dat", (table_file, theta_trace));
               ("mu.dat", (blank_row_file, mu_trace))]
              (empty_state example_files) (wf_empty _)) as [_ Hstored].
  { repeat constructor; vm_compute; reflexivity. }
  split; [apply (Hstored mu_key)|apply (Hstored "mu")].
Defined.

Lemma get_samples_after_ingestion_example :
  ∃ l st2,
    bind (generate_from_file read_table ["theta.dat"])
         (λ _, get_samples theta_key) (empty_state example_files) = (Return l, st2) ∧
    heap st2 !! l = Some theta_trace.
Proof.
  destruct (get_samples_after_ingestion read_table (empty_state example_files)
              "theta.dat" table_file theta_trace eq_refl eq_refl eq_refl)
    as (l & st2 & Hrun & Hcopy & _).
  exists l, st2. split; [exact Hrun|exact Hcopy].
Defined.

(** *** The time scale of a plotted element *)

Lemma plot_parameter_example :
  (plot_parameter_traces theta_key 1 example_store).1 =
    Return (Some (Ndarray [3] [Real 2; Real 4; Real 6])) ∧
  plot_parameter_timescale acor_two (Ndarray [3] [Real 2; Real 4; Real 6]) =
    Return (Ndarray [1] [2%float]).
Proof.
  destruct (proj1 (plot_parameter_time_scale acor_two example_store theta_key
                     1%positive theta_trace 1 eq_refl eq_refl)
              3 2 eq_refl eq_refl (le_n 2)) as (Htraces & Htime & _).
  split.
  - rewrite Htraces. vm_compute. reflexivity.
  - change (Ndarray [3] [Real 2; Real 4; Real 6]) with (column theta_trace 1).
    rewrite Htime. vm_compute. reflexivity.
Defined.
